(** * espeak: the synthesis Context, its engine binding and the event decoder

    A shallow embedding of package [espeak] (doc.go and the generated layout
    constants) together with the properties of its specification.

    Go values are modelled as follows: [int], [uint8], [int16], [uint32] and
    [time.Duration] are integers in [Z] (the code under study performs no
    arithmetic on them besides comparisons, so no wrap-around arises);
    strings are [String.string]; slices are lists; a Go [error] is
    [option error], [None] standing for [nil]; a [panic] is the outcome
    [Panicked].  The package-level mutex and the engine behind the binding
    are part of an explicit state that every operation threads. *)

From Stdlib Require Import ZArith List String Ascii Bool Arith Lia.
From Stdlib.Strings Require Import Byte.
From Equations Require Import Equations.
Import ListNotations.

Local Open Scope Z_scope.

(** ** Basic types *)

Definition int := Z.
Definition uint8 := Z.
Definition int16 := Z.
Definition uint32 := Z.
Definition Duration := Z.

(** [type Error struct { Code uint32; Message string }] *)
Record Error : Type := mkError { Code : uint32; Message : string }.

(** A Go [error] value that is not [nil]: either an engine [*Error] or the
    value built by [errors.New]. *)
Inductive error : Type :=
| EngineError (e : Error)
| errors_New (msg : string).

(** [type Gender uint8] and its constants. *)
Definition Gender := uint8.
Definition Unknown : Gender := 0.
Definition Male : Gender := 1.
Definition Female : Gender := 2.
Definition Neutral : Gender := 3.

Module Language.
Record t : Type := mk { Priority : uint8; Name : string }.
End Language.

Module Voice.
Record t : Type := mk {
  Name : string;
  Languages : list Language.t;
  Identifier : string;
  Gender : Gender;
  Age : uint8
}.
End Voice.

(** [type SynthEventType uint8] and its constants. *)
Definition SynthEventType := uint8.
Definition EventWord : SynthEventType := 1.
Definition EventSentence : SynthEventType := 2.
Definition EventMark : SynthEventType := 3.
Definition EventPlay : SynthEventType := 4.
Definition EventEnd : SynthEventType := 5.
Definition EventMsgTerminated : SynthEventType := 6.
Definition EventPhoneme : SynthEventType := 7.

Module SynthEvent.
Record t : Type := mk {
  Type_ : SynthEventType;
  TextPosition : int;
  Length : int;
  AudioPosition : Duration;
  Number : int;
  Name : string;
  Phoneme : string
}.
End SynthEvent.

(** The anonymous struct of the [voice] field of a Context. *)
Record VoiceQuery : Type := mkVoiceQuery {
  name : string;
  language : string;
  gender : Gender;
  age : uint8;
  variant : uint8
}.

(** [type Context struct] *)
Record Context : Type := mkContext {
  Samples : list int16;
  Events : list SynthEvent.t;
  rate : int;
  volume : int;
  pitch : int;
  tone : int;
  voice : VoiceQuery;
  isInit : bool
}.

(** The zero value of a Context. *)
Definition zeroVoice : VoiceQuery := mkVoiceQuery EmptyString EmptyString 0 0 0.
Definition zeroContext : Context := mkContext [] [] 0 0 0 0 zeroVoice false.

(** Field assignments. *)
Definition with_Samples (v : list int16) (c : Context) : Context :=
  mkContext v (Events c) (rate c) (volume c) (pitch c) (tone c) (voice c) (isInit c).
Definition with_Events (v : list SynthEvent.t) (c : Context) : Context :=
  mkContext (Samples c) v (rate c) (volume c) (pitch c) (tone c) (voice c) (isInit c).
Definition with_rate (v : int) (c : Context) : Context :=
  mkContext (Samples c) (Events c) v (volume c) (pitch c) (tone c) (voice c) (isInit c).
Definition with_volume (v : int) (c : Context) : Context :=
  mkContext (Samples c) (Events c) (rate c) v (pitch c) (tone c) (voice c) (isInit c).
Definition with_pitch (v : int) (c : Context) : Context :=
  mkContext (Samples c) (Events c) (rate c) (volume c) v (tone c) (voice c) (isInit c).
Definition with_tone (v : int) (c : Context) : Context :=
  mkContext (Samples c) (Events c) (rate c) (volume c) (pitch c) v (voice c) (isInit c).
Definition with_voice (v : VoiceQuery) (c : Context) : Context :=
  mkContext (Samples c) (Events c) (rate c) (volume c) (pitch c) (tone c) v (isInit c).
Definition with_isInit (v : bool) (c : Context) : Context :=
  mkContext (Samples c) (Events c) (rate c) (volume c) (pitch c) (tone c) (voice c) v.

Definition with_name (v : string) (q : VoiceQuery) : VoiceQuery :=
  mkVoiceQuery v (language q) (gender q) (age q) (variant q).
Definition with_language (v : string) (q : VoiceQuery) : VoiceQuery :=
  mkVoiceQuery (name q) v (gender q) (age q) (variant q).
Definition with_gender (v : Gender) (q : VoiceQuery) : VoiceQuery :=
  mkVoiceQuery (name q) (language q) v (age q) (variant q).
Definition with_age (v : uint8) (q : VoiceQuery) : VoiceQuery :=
  mkVoiceQuery (name q) (language q) (gender q) v (variant q).
Definition with_variant (v : uint8) (q : VoiceQuery) : VoiceQuery :=
  mkVoiceQuery (name q) (language q) (gender q) (age q) v.

(** ** What the program does to the outside: the mutex and the engine *)

(** One call into the engine binding. *)
Inductive EngineCall : Type :=
| CallSetRate (v : int)
| CallSetVolume (v : int)
| CallSetPitch (v : int)
| CallSetTone (v : int)
| CallSetVoice (q : VoiceQuery)
| CallSynthesize (text : string)
| CallListVoices
| CallGetSampleRate.

(** An observable step: taking or releasing the package-level [lock], or a
    call into the engine binding. *)
Inductive Event : Type :=
| EvLock
| EvUnlock
| EvCall (c : EngineCall).

(** How a Go function ends: by returning, or by a panic. *)
Inductive Outcome (A : Type) : Type :=
| Returned (a : A)
| Panicked (msg : string).
Arguments Returned {A} a.
Arguments Panicked {A} msg.

(** The engine binding: the functions doc.go calls and does not define.  The
    engine has a state of its own, of an arbitrary type [E]; every call may
    read and change it.  [synthesize] is the package-level function
    [synthesize(text, ctx)], which also receives the Context. *)
Class EngineBinding (E : Type) : Type := {
  setRate : int -> E -> option Error * E;
  setVolume : int -> E -> option Error * E;
  setPitch : int -> E -> option Error * E;
  setTone : int -> E -> option Error * E;
  setVoice : string -> string -> Gender -> uint8 -> uint8 -> E -> option Error * E;
  listVoices : E -> list Voice.t * E;
  getSampleRate : E -> int * E;
  synthesize : string -> Context -> E -> Outcome (option Error) * Context * E
}.

(** ** The state and the monad of the embedding *)

Section Monad.

Variable E : Type.

(** The Context a method is called on, the engine's state, and the events
    so far, oldest first. *)
Record State : Type := mkState {
  ctx : Context;
  eng : E;
  log : list Event
}.

Definition M (A : Type) : Type := State -> Outcome A * State.

Definition ret {A} (a : A) : M A := fun s => (Returned a, s).

Definition bind {A B} (m : M A) (k : A -> M B) : M B :=
  fun s =>
    match m s with
    | (Returned a, s') => k a s'
    | (Panicked msg, s') => (Panicked msg, s')
    end.

Definition panic {A} (msg : string) : M A := fun s => (Panicked msg, s).

(** [defer d] followed by [body]: [d] runs when [body] ends, whether it
    returned or panicked. *)
Definition deferring {A} (d : M unit) (body : M A) : M A :=
  fun s =>
    match body s with
    | (r, s') =>
        match d s' with
        | (Returned _, s'') => (r, s'')
        | (Panicked msg, s'') => (Panicked msg, s'')
        end
    end.

Definition get_ctx : M Context := fun s => (Returned (ctx s), s).

Definition assign (f : Context -> Context) : M unit :=
  fun s => (Returned tt, mkState (f (ctx s)) (eng s) (log s)).

Definition emit (ev : Event) : M unit :=
  fun s => (Returned tt, mkState (ctx s) (eng s) (log s ++ [ev])).

(** A call into the engine binding: recorded, then made on the engine. *)
Definition engine_call {A} (c : EngineCall) (f : E -> A * E) : M A :=
  fun s =>
    match f (eng s) with
    | (a, e') => (Returned a, mkState (ctx s) e' (log s ++ [EvCall c]))
    end.

End Monad.

Arguments mkState {E} ctx eng log.
Arguments ctx {E} s.
Arguments eng {E} s.
Arguments log {E} s.
Arguments ret {E A} a s.
Arguments bind {E A B} m k s.
Arguments panic {E A} msg s.
Arguments deferring {E A} d body s.
Arguments get_ctx {E} s.
Arguments assign {E} f s.
Arguments emit {E} ev s.
Arguments engine_call {E A} c f s.

Definition as_error (r : option Error) : option error :=
  match r with
  | Some e => Some (EngineError e)
  | None => None
  end.

Declare Scope go_scope.
Delimit Scope go_scope with go.
Notation "x <- m ;; k" := (bind m (fun x => k))
  (at level 61, m at next level, right associativity) : go_scope.
Notation "m ;; k" := (bind m (fun _ => k))
  (at level 61, right associativity) : go_scope.
(** [if err := m; err != nil { return err }] followed by [k]. *)
Notation "'check' m ;; k" :=
  (bind m (fun err => match err with Some e => ret (Some e) | None => k end))
  (at level 61, m at next level, right associativity) : go_scope.

(** ** doc.go *)

Section Package.

Context {E : Type} {binding : EngineBinding E}.

Local Open Scope go_scope.

Definition lock_Lock : M E unit := emit EvLock.
Definition lock_Unlock : M E unit := emit EvUnlock.

(** [func SampleRate() int] *)
Definition SampleRate : M E int :=
  engine_call CallGetSampleRate getSampleRate.

(** [func (ctx *Context) init()] *)
Definition init : M E unit :=
  c <- get_ctx ;;
  if isInit c then ret tt
  else
    assign (with_isInit true) ;;
    assign (with_rate 175) ;;
    assign (with_volume 100) ;;
    assign (with_pitch 50) ;;
    assign (with_tone 50).

(** [func (ctx *Context) Rate() int] and the three other getters. *)
Definition Rate : M E int := init ;; c <- get_ctx ;; ret (rate c).
Definition Volume : M E int := init ;; c <- get_ctx ;; ret (volume c).
Definition Pitch : M E int := init ;; c <- get_ctx ;; ret (pitch c).
Definition Range : M E int := init ;; c <- get_ctx ;; ret (tone c).

(** [func (ctx *Context) SetRate(wpm int)] *)
Definition SetRate (wpm : int) : M E unit :=
  if (wpm <? 80) || (wpm >? 450)
  then panic "espeak: Context.SetRate: wpm must be between 80 and 450"
  else init ;; assign (with_rate wpm).

(** [func (ctx *Context) SetVolume(percentage int)] *)
Definition SetVolume (percentage : int) : M E unit :=
  if percentage <? 0
  then panic "espeak: Context.SetVolume: percentage must not be negative"
  else init ;; assign (with_volume percentage).

(** [func (ctx *Context) SetPitch(pitch int)] *)
Definition SetPitch (pitch : int) : M E unit :=
  if (pitch <? 0) || (pitch >? 100)
  then panic "espeak: Context.SetPitch: pitch must be between 0 and 100"
  else init ;; assign (with_pitch pitch).

(** [func (ctx *Context) SetRange(tone int)] *)
Definition SetRange (tone : int) : M E unit :=
  if (tone <? 0) || (tone >? 100)
  then panic "espeak: Context.SetRange: tone must be between 0 and 100"
  else init ;; assign (with_tone tone).

(** [func ListVoices() []*Voice] *)
Definition ListVoices : M E (list Voice.t) :=
  lock_Lock ;;
  deferring lock_Unlock
    (engine_call CallListVoices listVoices).

(** The call [setVoice(name, language, gender, age, variant)] of the
    binding, as a Go [error]. *)
Definition call_setVoice (name language : string) (gender : Gender)
    (age variant : uint8) : M E (option error) :=
  r <- engine_call
         (CallSetVoice (mkVoiceQuery name language gender age variant))
         (setVoice name language gender age variant) ;;
  ret (as_error r).

(** [func validVoice(name, language string, gender Gender, age, variant uint8) error] *)
Definition validVoice (name language : string) (gender : Gender)
    (age variant : uint8) : M E (option error) :=
  lock_Lock ;;
  deferring lock_Unlock
    (call_setVoice name language gender age variant).

(** [func (ctx *Context) SetVoiceProperties(...) error] *)
Definition SetVoiceProperties (name language : string) (gender : Gender)
    (age variant : uint8) : M E (option error) :=
  check validVoice name language gender age variant ;;
  init ;;
  assign (fun c => with_voice (with_name name (voice c)) c) ;;
  assign (fun c => with_voice (with_language language (voice c)) c) ;;
  assign (fun c => with_voice (with_gender gender (voice c)) c) ;;
  assign (fun c => with_voice (with_age age (voice c)) c) ;;
  assign (fun c => with_voice (with_variant variant (voice c)) c) ;;
  ret None.

(** [func (ctx *Context) SetVoice(name string) error] *)
Definition SetVoice (name : string) : M E (option error) :=
  if String.eqb name EmptyString
  then ret (Some (errors_New "espeak: missing name in SetVoice"))
  else SetVoiceProperties name EmptyString Unknown 0 0.

(** The call [synthesize(text, ctx)] of the binding: it receives the
    Context and may change it. *)
Definition call_synthesize (text : string) : M E (option error) :=
  fun s =>
    match synthesize text (ctx s) (eng s) with
    | (Returned r, c', e') =>
        (Returned (as_error r),
         mkState c' e' (log s ++ [EvCall (CallSynthesize text)]))
    | (Panicked msg, c', e') =>
        (Panicked msg,
         mkState c' e' (log s ++ [EvCall (CallSynthesize text)]))
    end.

(** [func (ctx *Context) synthesize(text string) error] *)
Definition Context_synthesize (text : string) : M E (option error) :=
  lock_Lock ;;
  deferring lock_Unlock
    (check (c <- get_ctx ;;
            r <- engine_call (CallSetRate (rate c)) (setRate (rate c)) ;;
            ret (as_error r)) ;;
     check (c <- get_ctx ;;
            r <- engine_call (CallSetVolume (volume c)) (setVolume (volume c)) ;;
            ret (as_error r)) ;;
     check (c <- get_ctx ;;
            r <- engine_call (CallSetPitch (pitch c)) (setPitch (pitch c)) ;;
            ret (as_error r)) ;;
     check (c <- get_ctx ;;
            r <- engine_call (CallSetTone (tone c)) (setTone (tone c)) ;;
            ret (as_error r)) ;;
     check (c <- get_ctx ;;
            call_setVoice (name (voice c)) (language (voice c))
              (gender (voice c)) (age (voice c)) (variant (voice c))) ;;
     call_synthesize text).

(** [func (ctx *Context) SynthesizeText(text string) error] *)
Definition SynthesizeText (text : string) : M E (option error) :=
  init ;;
  Context_synthesize text.

End Package.

(** ** The generated layout constants (cgo -godefs) *)

Definition espeakEVENT_LIST_TERMINATED : Z := 0x0.
Definition espeakEVENT_WORD : Z := 0x1.
Definition espeakEVENT_SENTENCE : Z := 0x2.
Definition espeakEVENT_MARK : Z := 0x3.
Definition espeakEVENT_PLAY : Z := 0x4.
Definition espeakEVENT_END : Z := 0x5.
Definition espeakEVENT_MSG_TERMINATED : Z := 0x6.
Definition espeakEVENT_PHONEME : Z := 0x7.
Definition espeakEVENT_SAMPLERATE : Z := 0x8.

Definition eventSize : nat := 0x24.
Definition eventTypeOffset : nat := 0x0.
Definition eventTextPositionOffset : nat := 0x8.
Definition eventLengthOffset : nat := 0xc.
Definition eventAudioPositionOffset : nat := 0x10.
Definition eventNumberOffset : nat := 0x1c.
Definition eventNameOffset : nat := 0x1c.
Definition eventStringOffset : nat := 0x1c.

(** ** The event decoder *)

(** Reading the fields of a record.  The constants fix the offsets only;
    every integer field is read as a 32-bit little-endian two's complement
    value, which is what the distances between the offsets allow, and the
    union region runs from its offset to the end of the record. *)

Definition byte_at (bs : list byte) (off : nat) : Z :=
  Z.of_N (Byte.to_N (nth off bs x00)).

Definition read_u32 (bs : list byte) (off : nat) : Z :=
  Z.lor (byte_at bs off)
    (Z.lor (Z.shiftl (byte_at bs (off + 1)) 8)
       (Z.lor (Z.shiftl (byte_at bs (off + 2)) 16)
          (Z.shiftl (byte_at bs (off + 3)) 24))).

Definition read_i32 (bs : list byte) (off : nat) : Z :=
  let u := read_u32 bs off in
  if u <? 2 ^ 31 then u else u - 2 ^ 32.

(** The bytes up to the first NUL, as a string. *)
Fixpoint cstring (bs : list byte) : string :=
  match bs with
  | [] => EmptyString
  | b :: rest =>
      if Byte.eqb b x00 then EmptyString
      else String (ascii_of_byte b) (cstring rest)
  end.

Definition read_cstring (bs : list byte) (off : nat) : string :=
  cstring (firstn (eventSize - off) (skipn off bs)).

(** The conversion [SynthEventType(tag)] to [uint8]. *)
Definition to_uint8 (v : Z) : uint8 := Z.land v 0xff.

(** The bytes that follow the record at the head of [bs]. *)
Definition next_record (bs : list byte) : list byte := skipn eventSize bs.
Arguments next_record bs : simpl never.

Inductive DecodeResult : Type :=
| Decoded (events : list SynthEvent.t) (rest : list byte)
| ConsistencyFault.

Section Decoder.

(** The fixed factor that turns the engine's audio position into a
    [time.Duration]; the specification leaves its value open. *)
Variable audioUnit : Duration.

(** Modelled from the spec: the decoding of one event record, which is in
    the engine binding and not in the sources at hand.  The type tag, the
    text position and the audio position are read from their offsets for
    every record.  The length is the length of the word and has a meaning
    for Word only: it is read from its offset for a Word, and keeps its
    zero value for every other type.  The union region is read as an
    integer for Word and Sentence, as an embedded string for Mark and Play,
    and as an embedded string for Phoneme; the other payload fields keep
    their zero value. *)
Definition decodeRecord (bs : list byte) : SynthEvent.t :=
  let typ := to_uint8 (read_i32 bs eventTypeOffset) in
  let textPosition := read_i32 bs eventTextPositionOffset in
  let length :=
    if typ =? EventWord then read_i32 bs eventLengthOffset else 0 in
  let audioPosition := read_i32 bs eventAudioPositionOffset * audioUnit in
  if (typ =? EventWord) || (typ =? EventSentence) then
    SynthEvent.mk typ textPosition length audioPosition
      (read_i32 bs eventNumberOffset) EmptyString EmptyString
  else if (typ =? EventMark) || (typ =? EventPlay) then
    SynthEvent.mk typ textPosition length audioPosition
      0 (read_cstring bs eventNameOffset) EmptyString
  else if typ =? EventPhoneme then
    SynthEvent.mk typ textPosition length audioPosition
      0 EmptyString (read_cstring bs eventStringOffset)
  else
    SynthEvent.mk typ textPosition length audioPosition
      0 EmptyString EmptyString.

Definition prepend (ev : SynthEvent.t) (r : DecodeResult) : DecodeResult :=
  match r with
  | Decoded events rest => Decoded (ev :: events) rest
  | ConsistencyFault => ConsistencyFault
  end.

(** Modelled from the spec: the event decoder, which is in the engine
    binding and not in the sources at hand.  It decodes record by record
    until a record carries the tag "list terminated", where it stops and
    leaves what follows that record unread; fewer bytes than one record is
    a consistency fault. *)
Equations? decodeEvents (bs : list byte) : DecodeResult
  by wf (List.length bs) lt :=
decodeEvents bs with le_lt_dec eventSize (List.length bs) := {
  | right _ := ConsistencyFault
  | left _ with read_i32 bs eventTypeOffset =? espeakEVENT_LIST_TERMINATED := {
    | true := Decoded [] (next_record bs)
    | false := prepend (decodeRecord bs) (decodeEvents (next_record bs)) } }.
Proof.
  unfold next_record. rewrite length_skipn. unfold eventSize in *. lia.
Qed.

(** What the engine hands to the callback during one synthesis call. *)
Inductive Chunk : Type :=
| SampleChunk (samples : list int16)
| EventChunk (bytes : list byte).

(** Modelled from the spec: the streaming callback, which is in the engine
    binding and not in the sources at hand.  A chunk of samples is appended
    to Samples; a block of event bytes goes through the decoder and the
    decoded records are appended to Events. *)
Definition deliver (k : Chunk) (c : Context) : Outcome unit * Context :=
  match k with
  | SampleChunk samples =>
      (Returned tt, with_Samples (Samples c ++ samples) c)
  | EventChunk bytes =>
      match decodeEvents bytes with
      | Decoded events _ => (Returned tt, with_Events (Events c ++ events) c)
      | ConsistencyFault => (Panicked "espeak: truncated event record", c)
      end
  end.

Fixpoint deliverAll (ks : list Chunk) (c : Context) : Outcome unit * Context :=
  match ks with
  | [] => (Returned tt, c)
  | k :: rest =>
      match deliver k c with
      | (Returned _, c') => deliverAll rest c'
      | (Panicked msg, c') => (Panicked msg, c')
      end
  end.

(** Modelled from the spec: the package-level [synthesize(text, ctx)], which
    is in the engine binding and not in the sources at hand.  Samples and
    Events are cleared, the engine runs over the text and hands its chunks
    to the callback in emission order, and the engine's result is
    returned.  [run] is the engine's own synthesis. *)
Definition synthesize_spec {E : Type}
    (run : string -> E -> list Chunk * option Error * E)
    (text : string) (c : Context) (e : E)
    : Outcome (option Error) * Context * E :=
  match run text e with
  | (chunks, r, e') =>
      match deliverAll chunks (with_Events [] (with_Samples [] c)) with
      | (Returned _, c') => (Returned r, c', e')
      | (Panicked msg, c') => (Panicked msg, c', e')
      end
  end.

End Decoder.

(** ** Vocabulary for the statements *)

(** The Context that [init] leaves: the defaults on first use, the Context
    as it is afterwards. *)
Definition initialized (c : Context) : Context :=
  if isInit c then c
  else mkContext (Samples c) (Events c) 175 100 50 50 (voice c) true.

Inductive Getter : Type := GetRate | GetVolume | GetPitch | GetRange.

Section Vocabulary.

Context {E : Type} {binding : EngineBinding E}.

Definition call_getter (g : Getter) : M E int :=
  match g with
  | GetRate => Rate
  | GetVolume => Volume
  | GetPitch => Pitch
  | GetRange => Range
  end.

(** The state after the getters [gs] were called one after the other. *)
Definition after_getters (gs : list Getter) (s : State E) : State E :=
  fold_left (fun st g => snd (call_getter g st)) gs s.

(** One call of the binding that only answers with an error or [nil]. *)
Definition push (c : EngineCall) (e : E) : option Error * E :=
  match c with
  | CallSetRate v => setRate v e
  | CallSetVolume v => setVolume v e
  | CallSetPitch v => setPitch v e
  | CallSetTone v => setTone v e
  | CallSetVoice q =>
      setVoice (name q) (language q) (gender q) (age q) (variant q) e
  | _ => (None, e)
  end.

(** The calls [cs] made in order up to and including the first that fails:
    the calls made, the error of the failing one if any, and the engine
    afterwards. *)
Fixpoint push_until_failure (cs : list EngineCall) (e : E)
    : list EngineCall * option Error * E :=
  match cs with
  | [] => ([], None, e)
  | c :: rest =>
      match push c e with
      | (Some err, e') => ([c], Some err, e')
      | (None, e') =>
          match push_until_failure rest e' with
          | (made, r, e'') => (c :: made, r, e'')
          end
      end
  end.

(** The five pushes of a synthesis, in the order of the specification:
    rate, volume, pitch, range and voice query. *)
Definition pushes_of (c : Context) : list EngineCall :=
  [CallSetRate (rate c); CallSetVolume (volume c); CallSetPitch (pitch c);
   CallSetTone (tone c); CallSetVoice (voice c)].

End Vocabulary.

(** A record of the event stream: the fixed size, and a type tag other than
    the sentinel. *)
Definition event_record (bs : list byte) : Prop :=
  List.length bs = eventSize /\
  read_i32 bs eventTypeOffset <> espeakEVENT_LIST_TERMINATED.

(** The sentinel record: the fixed size, and the tag "list terminated". *)
Definition sentinel_record (bs : list byte) : Prop :=
  List.length bs = eventSize /\
  read_i32 bs eventTypeOffset = espeakEVENT_LIST_TERMINATED.

(** The fields of an event hold a value only where the type of the event
    gives them a meaning: Length for Word, Number for Word and Sentence,
    Name for Mark and Play, Phoneme for Phoneme; outside that they are
    zero.  (The type and the two positions have a meaning for every
    type.) *)
Definition payload_fits_type (ev : SynthEvent.t) : Prop :=
  (SynthEvent.Type_ ev <> EventWord -> SynthEvent.Length ev = 0) /\
  (SynthEvent.Type_ ev <> EventWord -> SynthEvent.Type_ ev <> EventSentence ->
   SynthEvent.Number ev = 0) /\
  (SynthEvent.Type_ ev <> EventMark -> SynthEvent.Type_ ev <> EventPlay ->
   SynthEvent.Name ev = EmptyString) /\
  (SynthEvent.Type_ ev <> EventPhoneme ->
   SynthEvent.Phoneme ev = EmptyString).

(** The samples, and the events, that a sequence of chunks carries. *)
Definition delivered_samples (ks : list Chunk) : list int16 :=
  flat_map (fun k => match k with
                     | SampleChunk samples => samples
                     | EventChunk _ => []
                     end) ks.

Definition delivered_events (audioUnit : Duration) (ks : list Chunk)
    : list SynthEvent.t :=
  flat_map (fun k => match k with
                     | SampleChunk _ => []
                     | EventChunk bytes =>
                         match decodeEvents audioUnit bytes with
                         | Decoded events _ => events
                         | ConsistencyFault => []
                         end
                     end) ks.

(** The chunks the engine hands over during the call [SynthesizeText text]
    made in state [s]: its synthesis [run] starts once the five pushes are
    made. *)
Definition chunks_of_call {E : Type} {binding : EngineBinding E}
    (run : string -> E -> list Chunk * option Error * E)
    (text : string) (s : State E) : list Chunk :=
  fst (fst (run text
              (snd (push_until_failure (pushes_of (initialized (ctx s)))
                      (eng s))))).

(** ** Goroutines contending on the lock *)

Definition goroutine := nat.

(** A schedule: the events of a run of the whole process, oldest first,
    each with the goroutine that performs it. *)
Definition Schedule := list (goroutine * Event).

(** [sync.Mutex]: [Lock] goes through on an unlocked mutex only (on a
    locked one the goroutine waits and performs nothing), and [Unlock] of
    an unlocked mutex is a fatal error.  The mutex does not know which
    goroutine locked it. *)
Definition mutex_step (locked : bool) (ev : Event) : option bool :=
  match ev with
  | EvLock => if locked then None else Some true
  | EvUnlock => if locked then Some false else None
  | EvCall _ => Some locked
  end.

Fixpoint mutex_run (locked : bool) (sched : Schedule) : option bool :=
  match sched with
  | [] => Some locked
  | (_, ev) :: rest =>
      match mutex_step locked ev with
      | Some locked' => mutex_run locked' rest
      | None => None
      end
  end.

(** The schedules the mutex allows, starting unlocked. *)
Definition mutex_allows (sched : Schedule) : Prop :=
  mutex_run false sched <> None.

(** The events of one goroutine, in order. *)
Definition project (g : goroutine) (sched : Schedule) : list Event :=
  map snd (filter (fun x => Nat.eqb (fst x) g) sched).

(** Whether a goroutine that performed [evs] has taken the lock and not
    released it since. *)
Definition holding (evs : list Event) : bool :=
  fold_left
    (fun h ev =>
       match ev with
       | EvLock => true
       | EvUnlock => false
       | EvCall _ => h
       end)
    evs false.

(** A goroutine that keeps the discipline of the lock: it takes the lock
    when it is outside its critical section, and calls the engine and
    releases the lock only inside.  [section_run inside evs] follows the
    events from the state [inside] and fails at the first that breaks the
    discipline. *)
Definition section_step (inside : bool) (ev : Event) : option bool :=
  match ev with
  | EvLock => if inside then None else Some true
  | EvUnlock => if inside then Some false else None
  | EvCall _ => if inside then Some true else None
  end.

Fixpoint section_run (inside : bool) (evs : list Event) : option bool :=
  match evs with
  | [] => Some inside
  | ev :: rest =>
      match section_step inside ev with
      | Some inside' => section_run inside' rest
      | None => None
      end
  end.

(** The events of an operation that brackets its engine calls: nothing at
    all, or Lock, engine calls, Unlock. *)
Definition bracketed (evs : list Event) : Prop :=
  evs = [] \/
  exists calls : list EngineCall, evs = [EvLock] ++ map EvCall calls ++ [EvUnlock].

(** The operations of the package that reach the engine binding under the
    lock: the voice-catalog query, the voice-query validation with the two
    setters built on it, and synthesis with its parameter pushes. *)
Inductive Operation : Type :=
| OpListVoices
| OpValidVoice (q : VoiceQuery)
| OpSetVoiceProperties (q : VoiceQuery)
| OpSetVoice (name : string)
| OpSynthesize (text : string)
| OpSynthesizeText (text : string).

Section Operations.

Context {E : Type} {binding : EngineBinding E}.

Local Open Scope go_scope.

Definition perform (o : Operation) : M E unit :=
  match o with
  | OpListVoices => ListVoices ;; ret tt
  | OpValidVoice q =>
      validVoice (name q) (language q) (gender q) (age q) (variant q) ;; ret tt
  | OpSetVoiceProperties q =>
      SetVoiceProperties (name q) (language q) (gender q) (age q) (variant q) ;;
      ret tt
  | OpSetVoice name => SetVoice name ;; ret tt
  | OpSynthesize text => Context_synthesize text ;; ret tt
  | OpSynthesizeText text => SynthesizeText text ;; ret tt
  end.

(** The events of one operation, called on Context [c] with the engine in
    state [e]. *)
Definition events_of (o : Operation) (c : Context) (e : E) : list Event :=
  log (snd (perform o (mkState c e []))).

(** A goroutine of a client: it performs operations one after the other,
    each on some Context and finding the engine in some state; [evs] is
    what it has performed so far, possibly in the middle of an operation. *)
Definition client (evs : list Event) : Prop :=
  exists (ops : list (Operation * Context * E)) (rest : list Event),
    evs ++ rest = List.concat (map (fun r => events_of (fst (fst r)) (snd (fst r)) (snd r)) ops).

End Operations.

(** ** The rest of doc.go, and vocabulary for its properties *)

(** [func (err *Error) Error() string] *)
Definition Error_Error (err : Error) : string :=
  String.append "espeak: " (Message err).

(** [err.Error()] on a Go [error]: the method of [*Error] for an error of
    the engine, the text itself for an error made by [errors.New]. *)
Definition error_text (err : error) : string :=
  match err with
  | EngineError e => Error_Error e
  | errors_New msg => msg
  end.

(** A call of one of the four setters. *)
Inductive SetterCall : Type :=
| SetRateTo (wpm : int)
| SetVolumeTo (percentage : int)
| SetPitchTo (pitch : int)
| SetRangeTo (tone : int).

(** The bounds that the setters check. *)
Definition in_bounds (c : SetterCall) : Prop :=
  match c with
  | SetRateTo wpm => 80 <= wpm <= 450
  | SetVolumeTo percentage => 0 <= percentage
  | SetPitchTo pitch => 0 <= pitch <= 100
  | SetRangeTo tone => 0 <= tone <= 100
  end.

(** The parameter a setter call is about. *)
Definition parameter_of (c : SetterCall) : Getter :=
  match c with
  | SetRateTo _ => GetRate
  | SetVolumeTo _ => GetVolume
  | SetPitchTo _ => GetPitch
  | SetRangeTo _ => GetRange
  end.

Definition value_of (c : SetterCall) : int :=
  match c with
  | SetRateTo v | SetVolumeTo v | SetPitchTo v | SetRangeTo v => v
  end.

Definition Getter_eqb (g1 g2 : Getter) : bool :=
  match g1, g2 with
  | GetRate, GetRate | GetVolume, GetVolume
  | GetPitch, GetPitch | GetRange, GetRange => true
  | _, _ => false
  end.

(** The value of parameter [g] stored in a Context. *)
Definition stored (g : Getter) (c : Context) : int :=
  match g with
  | GetRate => rate c
  | GetVolume => volume c
  | GetPitch => pitch c
  | GetRange => tone c
  end.

(** The last value that the calls [cs] give to parameter [g], [v] if none
    of them is about [g]. *)
Definition last_set (g : Getter) (cs : list SetterCall) (v : int) : int :=
  fold_left (fun r c => if Getter_eqb (parameter_of c) g then value_of c else r)
    cs v.

(** The assignment that a setter call ends with. *)
Definition assign_parameter (c : SetterCall) : Context -> Context :=
  match c with
  | SetRateTo wpm => with_rate wpm
  | SetVolumeTo percentage => with_volume percentage
  | SetPitchTo pitch => with_pitch pitch
  | SetRangeTo tone => with_tone tone
  end.

(** The documented default of a parameter. *)
Definition default_of (g : Getter) : int :=
  match g with
  | GetRate => 175
  | GetVolume => 100
  | GetPitch => 50
  | GetRange => 50
  end.

(** An initialised Context has its four parameters within the documented
    bounds. *)
Definition params_ok (c : Context) : Prop :=
  isInit c = true ->
  80 <= rate c <= 450 /\ 0 <= volume c /\
  0 <= pitch c <= 100 /\ 0 <= tone c <= 100.

Section MoreVocabulary.

Context {E : Type} {binding : EngineBinding E}.

Definition call_setter (c : SetterCall) : M E unit :=
  match c with
  | SetRateTo wpm => SetRate wpm
  | SetVolumeTo percentage => SetVolume percentage
  | SetPitchTo pitch => SetPitch pitch
  | SetRangeTo tone => SetRange tone
  end.

(** The state after the setter calls [cs] were made one after the other. *)
Definition after_setters (cs : list SetterCall) (s : State E) : State E :=
  fold_left (fun st c => snd (call_setter c st)) cs s.

(** The events of one goroutine [g] performing an operation. *)
Definition run_by (g : goroutine) (evs : list Event) : Schedule :=
  map (pair g) evs.

(** A serial schedule: operations performed one after the other, each by
    some goroutine on some Context and finding the engine in some state, an
    operation beginning when the one before has ended. *)
Definition serial_schedule
    (ops : list (goroutine * (Operation * Context * E))) : Schedule :=
  List.concat
    (map (fun r => run_by (fst r)
                     (events_of (fst (fst (snd r))) (snd (fst (snd r))) (snd (snd r))))
       ops).

End MoreVocabulary.

(** ** A small engine, for running the definitions *)

Definition byte_of_Z (v : Z) : byte :=
  match Byte.of_N (Z.to_N (Z.land v 0xff)) with
  | Some b => b
  | None => x00
  end.

Definition le32 (v : Z) : list byte :=
  [byte_of_Z v; byte_of_Z (Z.shiftr v 8);
   byte_of_Z (Z.shiftr v 16); byte_of_Z (Z.shiftr v 24)].

(** An event record: the tag, the identifier, the three positions, the
    sample counter, the user data and the eight bytes of the union. *)
Definition demoRecord (tag textPosition length audioPosition : Z)
    (payload : list byte) : list byte :=
  le32 tag ++ le32 0 ++ le32 textPosition ++ le32 length
    ++ le32 audioPosition ++ le32 0 ++ le32 0 ++ firstn 8 (payload ++ repeat x00 8).

Definition demoSentinel : list byte :=
  demoRecord espeakEVENT_LIST_TERMINATED 0 0 0 [].

Definition demoWord : list byte :=
  demoRecord espeakEVENT_WORD 1 5 0 (le32 1).

Definition demoMark : list byte :=
  demoRecord espeakEVENT_MARK 7 0 120 [x68; x69].

Definition demoEnd : list byte :=
  demoRecord espeakEVENT_END 12 0 480 [].

(** Two records whose length field is not zero although they are no Word. *)
Definition demoLongMark : list byte :=
  demoRecord espeakEVENT_MARK 7 5 120 [x68; x69].

Definition demoSentence : list byte :=
  demoRecord espeakEVENT_SENTENCE 1 9 0 (le32 1).

(** The engine accepts rates up to its state, rejects the voice named
    "does-not-exist", and speaks every text the same way. *)
Definition demoRun (text : string) (e : Z) : list Chunk * option Error * Z :=
  ([SampleChunk [3; -4; 5];
    EventChunk (demoWord ++ demoMark ++ demoSentinel);
    SampleChunk [6];
    EventChunk (demoEnd ++ demoSentinel ++ demoWord)],
   None, e).

#[local] Instance demoBinding : EngineBinding Z := {|
  setRate v e :=
    if v <=? e then (None, e) else (Some (mkError 2 "rate not supported"), e);
  setVolume v e := (None, e);
  setPitch v e := (None, e);
  setTone v e := (None, e);
  setVoice name language gender age variant e :=
    if String.eqb name "does-not-exist"
    then (Some (mkError 3 "voice not found"), e)
    else (None, e);
  listVoices e := ([], e);
  getSampleRate e := (22050, e);
  synthesize := synthesize_spec 1000000 demoRun
|}.

(** An engine binding whose synthesis panics. *)
Definition faultyBinding : EngineBinding Z := {|
  setRate v e := (None, e);
  setVolume v e := (None, e);
  setPitch v e := (None, e);
  setTone v e := (None, e);
  setVoice name language gender age variant e := (None, e);
  listVoices e := ([], e);
  getSampleRate e := (22050, e);
  synthesize text c e := (Panicked "espeak: engine fault", c, e)
|}.

(** A fresh Context in front of an engine that takes every rate, and one in
    front of an engine that takes rates up to 100 only. *)
Definition demoState : State Z := mkState zeroContext 450 [].
Definition demoSlowState : State Z := mkState zeroContext 100 [].

(** Two goroutines: the first synthesizes in front of the slow engine, the
    second lists the voices once the first has released the lock. *)
Definition demoSchedule : Schedule :=
  [(0%nat, EvLock); (0%nat, EvCall (CallSetRate 175)); (0%nat, EvUnlock);
   (1%nat, EvLock); (1%nat, EvCall CallListVoices); (1%nat, EvUnlock)].

(** * Properties *)

(** ** The monad and [init] *)

Section PackageFacts.

Context {E : Type} {binding : EngineBinding E}.

Local Open Scope go_scope.

Lemma init_run (s : State E) :
  init s = (Returned tt, mkState (initialized (ctx s)) (eng s) (log s)).
Proof.
  destruct s as [c e l]. unfold init, initialized, bind, get_ctx, assign, ret.
  simpl. destruct (isInit c); reflexivity.
Qed.

Lemma initialized_idem (c : Context) : initialized (initialized c) = initialized c.
Proof. unfold initialized. destruct (isInit c) eqn:H; simpl; [rewrite H|]; reflexivity. Qed.

Lemma isInit_initialized (c : Context) : isInit (initialized c) = true.
Proof. unfold initialized. destruct (isInit c) eqn:H; simpl; auto. Qed.

Lemma initialized_of_init (c : Context) : isInit c = true -> initialized c = c.
Proof. unfold initialized. intros ->. reflexivity. Qed.

Lemma getter_run (g : Getter) (s : State E) :
  call_getter g s =
  (Returned match g with
            | GetRate => rate (initialized (ctx s))
            | GetVolume => volume (initialized (ctx s))
            | GetPitch => pitch (initialized (ctx s))
            | GetRange => tone (initialized (ctx s))
            end,
   mkState (initialized (ctx s)) (eng s) (log s)).
Proof.
  destruct g; unfold call_getter, Rate, Volume, Pitch, Range, bind;
    rewrite init_run; reflexivity.
Qed.

Lemma after_getters_ctx (gs : list Getter) (s : State E) :
  ctx (after_getters gs s) = match gs with [] => ctx s | _ => initialized (ctx s) end.
Proof.
  revert s. induction gs as [|g gs IH]; intros s; [reflexivity|].
  unfold after_getters in *. simpl. rewrite IH, getter_run. simpl.
  destruct gs; [reflexivity|apply initialized_idem].
Qed.

(** C4. A freshly created (zero-valued) Context on which only getters have
    been called, if anything, reports the documented defaults: Rate is 175,
    Volume is 100, Pitch is 50 and Range is 50. *)
Theorem defaults_before_any_set (gs : list Getter) (e : E) (l : list Event) :
  let s := after_getters gs (mkState zeroContext e l) in
  fst (Rate s) = Returned 175 /\
  fst (Volume s) = Returned 100 /\
  fst (Pitch s) = Returned 50 /\
  fst (Range s) = Returned 50.
Proof.
  intros s.
  assert (Hc : initialized (ctx s) = initialized zeroContext).
  { subst s. rewrite after_getters_ctx. destruct gs; [reflexivity|].
    apply initialized_idem. }
  pose proof (getter_run GetRate s) as Hr.
  pose proof (getter_run GetVolume s) as Hv.
  pose proof (getter_run GetPitch s) as Hp.
  pose proof (getter_run GetRange s) as Ht.
  simpl in Hr, Hv, Hp, Ht.
  rewrite Hr, Hv, Hp, Ht, Hc. repeat split.
Qed.

(** ** The four numeric parameters *)

Lemma SetRate_run (wpm : int) (s : State E) :
  80 <= wpm <= 450 ->
  SetRate wpm s =
  (Returned tt, mkState (with_rate wpm (initialized (ctx s))) (eng s) (log s)).
Proof.
  intros H. unfold SetRate.
  replace (wpm <? 80) with false by (symmetry; apply Z.ltb_ge; lia).
  replace (wpm >? 450) with false by (rewrite Z.gtb_ltb; symmetry; apply Z.ltb_ge; lia).
  cbn [orb]. unfold bind. rewrite init_run. reflexivity.
Qed.

Lemma SetVolume_run (percentage : int) (s : State E) :
  0 <= percentage ->
  SetVolume percentage s =
  (Returned tt, mkState (with_volume percentage (initialized (ctx s))) (eng s) (log s)).
Proof.
  intros H. unfold SetVolume.
  replace (percentage <? 0) with false by (symmetry; apply Z.ltb_ge; lia).
  cbn [orb]. unfold bind. rewrite init_run. reflexivity.
Qed.

Lemma SetPitch_run (pitch : int) (s : State E) :
  0 <= pitch <= 100 ->
  SetPitch pitch s =
  (Returned tt, mkState (with_pitch pitch (initialized (ctx s))) (eng s) (log s)).
Proof.
  intros H. unfold SetPitch.
  replace (pitch <? 0) with false by (symmetry; apply Z.ltb_ge; lia).
  replace (pitch >? 100) with false by (rewrite Z.gtb_ltb; symmetry; apply Z.ltb_ge; lia).
  cbn [orb]. unfold bind. rewrite init_run. reflexivity.
Qed.

Lemma SetRange_run (tone : int) (s : State E) :
  0 <= tone <= 100 ->
  SetRange tone s =
  (Returned tt, mkState (with_tone tone (initialized (ctx s))) (eng s) (log s)).
Proof.
  intros H. unfold SetRange.
  replace (tone <? 0) with false by (symmetry; apply Z.ltb_ge; lia).
  replace (tone >? 100) with false by (rewrite Z.gtb_ltb; symmetry; apply Z.ltb_ge; lia).
  cbn [orb]. unfold bind. rewrite init_run. reflexivity.
Qed.

(** C5. On every Context, initialised or not, a value within the documented
    bounds that is set is the value the matching getter then returns: rate
    in 80..450, volume at least 0, pitch and range in 0..100. *)
Theorem set_then_get (s : State E) (wpm percentage pitch tone : int)
    (Hrate : 80 <= wpm <= 450) (Hvolume : 0 <= percentage)
    (Hpitch : 0 <= pitch <= 100) (Hrange : 0 <= tone <= 100) :
  fst ((SetRate wpm ;; Rate) s) = Returned wpm /\
  fst ((SetVolume percentage ;; Volume) s) = Returned percentage /\
  fst ((SetPitch pitch ;; Pitch) s) = Returned pitch /\
  fst ((SetRange tone ;; Range) s) = Returned tone.
Proof.
  unfold bind.
  rewrite SetRate_run, SetVolume_run, SetPitch_run, SetRange_run by assumption.
  pose proof (fun st => getter_run GetRate st) as Hr.
  pose proof (fun st => getter_run GetVolume st) as Hv.
  pose proof (fun st => getter_run GetPitch st) as Hp.
  pose proof (fun st => getter_run GetRange st) as Ht.
  simpl in Hr, Hv, Hp, Ht. rewrite Hr, Hv, Hp, Ht.
  cbn [fst ctx].
  rewrite (initialized_of_init (with_rate wpm (initialized (ctx s))))
    by apply isInit_initialized.
  rewrite (initialized_of_init (with_volume percentage (initialized (ctx s))))
    by apply isInit_initialized.
  rewrite (initialized_of_init (with_pitch pitch (initialized (ctx s))))
    by apply isInit_initialized.
  rewrite (initialized_of_init (with_tone tone (initialized (ctx s))))
    by apply isInit_initialized.
  repeat split.
Qed.

(** C6. A value outside the documented bounds makes the setter panic with
    its invalid-argument message, and the whole state is then what it was
    before the call: the four parameters, the initialised flag, the voice
    query, Samples and Events (and the engine, which was not called). *)
Theorem set_out_of_bounds (s : State E) (wpm percentage pitch tone : int)
    (Hrate : wpm < 80 \/ 450 < wpm) (Hvolume : percentage < 0)
    (Hpitch : pitch < 0 \/ 100 < pitch) (Hrange : tone < 0 \/ 100 < tone) :
  SetRate wpm s =
    (Panicked "espeak: Context.SetRate: wpm must be between 80 and 450", s) /\
  SetVolume percentage s =
    (Panicked "espeak: Context.SetVolume: percentage must not be negative", s) /\
  SetPitch pitch s =
    (Panicked "espeak: Context.SetPitch: pitch must be between 0 and 100", s) /\
  SetRange tone s =
    (Panicked "espeak: Context.SetRange: tone must be between 0 and 100", s).
Proof.
  unfold SetRate, SetVolume, SetPitch, SetRange.
  assert (H1 : ((wpm <? 80) || (wpm >? 450)) = true).
  { apply orb_true_iff. rewrite Z.gtb_ltb, !Z.ltb_lt. lia. }
  assert (H2 : (percentage <? 0) = true) by (apply Z.ltb_lt; lia).
  assert (H3 : ((pitch <? 0) || (pitch >? 100)) = true).
  { apply orb_true_iff. rewrite Z.gtb_ltb, !Z.ltb_lt. lia. }
  assert (H4 : ((tone <? 0) || (tone >? 100)) = true).
  { apply orb_true_iff. rewrite Z.gtb_ltb, !Z.ltb_lt. lia. }
  rewrite H1, H2, H3, H4. repeat split.
Qed.

(** C10. On an initialised Context, a setter given a value within bounds
    changes its own parameter and nothing else: the three other
    parameters, the voice query, Samples, Events and the flag stay, and
    neither the engine nor the lock is touched. *)
Theorem set_changes_own_field (s : State E) (wpm percentage p t : int)
    (Hinit : isInit (ctx s) = true)
    (Hrate : 80 <= wpm <= 450) (Hvolume : 0 <= percentage)
    (Hpitch : 0 <= p <= 100) (Hrange : 0 <= t <= 100) :
  let c := ctx s in
  SetRate wpm s =
    (Returned tt,
     mkState (mkContext (Samples c) (Events c) wpm (volume c) (pitch c)
                (tone c) (voice c) (isInit c)) (eng s) (log s)) /\
  SetVolume percentage s =
    (Returned tt,
     mkState (mkContext (Samples c) (Events c) (rate c) percentage (pitch c)
                (tone c) (voice c) (isInit c)) (eng s) (log s)) /\
  SetPitch p s =
    (Returned tt,
     mkState (mkContext (Samples c) (Events c) (rate c) (volume c) p
                (tone c) (voice c) (isInit c)) (eng s) (log s)) /\
  SetRange t s =
    (Returned tt,
     mkState (mkContext (Samples c) (Events c) (rate c) (volume c) (pitch c)
                t (voice c) (isInit c)) (eng s) (log s)).
Proof.
  intros c.
  rewrite SetRate_run, SetVolume_run, SetPitch_run, SetRange_run by assumption.
  rewrite (initialized_of_init _ Hinit). repeat split.
Qed.

(** ** The voice query *)

Lemma validVoice_run (s : State E) (name language : string) (gender : Gender)
    (age variant : uint8) :
  validVoice name language gender age variant s =
  (Returned (as_error (fst (setVoice name language gender age variant (eng s)))),
   mkState (ctx s) (snd (setVoice name language gender age variant (eng s)))
     (log s ++ [EvLock; EvCall (CallSetVoice (mkVoiceQuery name language gender age variant));
                EvUnlock])).
Proof.
  unfold validVoice, call_setVoice, lock_Lock, lock_Unlock, deferring, bind,
    emit, engine_call, ret. simpl.
  destruct (setVoice name language gender age variant (eng s)) as [r e'].
  simpl. rewrite <- !app_assoc. reflexivity.
Qed.

(** C3. SetVoiceProperties succeeds exactly when the voice-selection call
    of the engine binding accepts the query.  When the engine refuses,
    the engine's Error is returned and the Context is left as it was;
    when it accepts, [nil] is returned and the five fields of the query
    are stored in the (initialised) Context.  In both cases the one engine
    call is made between Lock and Unlock. *)
Theorem SetVoiceProperties_iff_engine_accepts (s : State E)
    (name language : string) (gender : Gender) (age variant : uint8) :
  let q := mkVoiceQuery name language gender age variant in
  let l := log s ++ [EvLock; EvCall (CallSetVoice q); EvUnlock] in
  match setVoice name language gender age variant (eng s) with
  | (None, e) =>
      SetVoiceProperties name language gender age variant s =
      (Returned None,
       mkState (mkContext (Samples (initialized (ctx s))) (Events (initialized (ctx s)))
                  (rate (initialized (ctx s))) (volume (initialized (ctx s)))
                  (pitch (initialized (ctx s))) (tone (initialized (ctx s)))
                  q true) e l)
  | (Some err, e) =>
      SetVoiceProperties name language gender age variant s =
      (Returned (Some (EngineError err)), mkState (ctx s) e l)
  end.
Proof.
  intros q l. unfold SetVoiceProperties, bind.
  rewrite validVoice_run.
  destruct (setVoice name language gender age variant (eng s)) as [[err|] e];
    cbn [as_error fst snd]; [reflexivity|].
  rewrite init_run. unfold assign, ret, with_voice, with_name, with_language,
    with_gender, with_age, with_variant. cbn -[initialized].
  rewrite isInit_initialized. reflexivity.
Qed.

(** C8, as the code has it.  SetVoice with an empty name returns the
    ordinary error value built by [errors.New]; it does not panic.  The
    engine binding is not called, the lock is not taken and the Context is
    not changed. *)
Theorem SetVoice_empty_name_returns_error (s : State E) :
  SetVoice EmptyString s =
  (Returned (Some (errors_New "espeak: missing name in SetVoice")), s).
Proof. reflexivity. Qed.

(** ** Synthesis *)

Lemma Context_synthesize_run (s : State E) (text : string) :
  Context_synthesize text s =
  match push_until_failure (pushes_of (ctx s)) (eng s) with
  | (made, Some err, e) =>
      (Returned (Some (EngineError err)),
       mkState (ctx s) e (log s ++ [EvLock] ++ map EvCall made ++ [EvUnlock]))
  | (made, None, e) =>
      match synthesize text (ctx s) e with
      | (r, c, e') =>
          (match r with
           | Returned r' => Returned (as_error r')
           | Panicked msg => Panicked msg
           end,
           mkState c e'
             (log s ++ [EvLock] ++ map EvCall (made ++ [CallSynthesize text])
                ++ [EvUnlock]))
      end
  end.
Proof.
  destruct s as [c e0 l].
  unfold Context_synthesize, call_setVoice, call_synthesize, lock_Lock,
    lock_Unlock, deferring, bind, emit, engine_call, get_ctx, ret, pushes_of.
  cbn [ctx eng log push_until_failure push].
  destruct (setRate (rate c) e0) as [[err|] e1]; cbn [as_error ctx eng log];
    [rewrite <- !app_assoc; reflexivity|].
  destruct (setVolume (volume c) e1) as [[err|] e2]; cbn [as_error ctx eng log];
    [rewrite <- !app_assoc; reflexivity|].
  destruct (setPitch (pitch c) e2) as [[err|] e3]; cbn [as_error ctx eng log];
    [rewrite <- !app_assoc; reflexivity|].
  destruct (setTone (tone c) e3) as [[err|] e4]; cbn [as_error ctx eng log];
    [rewrite <- !app_assoc; reflexivity|].
  destruct (voice c) as [n la g a v]; cbn [name language gender age variant].
  destruct (setVoice n la g a v e4) as [[err|] e5]; cbn [as_error ctx eng log];
    [rewrite <- !app_assoc; reflexivity|].
  destruct (synthesize text _ e5) as [[[r|msg] c'] e6]; cbn [ctx eng log];
    rewrite <- !app_assoc; reflexivity.
Qed.

Lemma push_until_failure_prefix (cs : list EngineCall) (e : E) :
  exists rest, cs = fst (fst (push_until_failure cs e)) ++ rest.
Proof.
  revert e. induction cs as [|c cs IH]; intros e; simpl.
  - exists []. reflexivity.
  - destruct (push c e) as [[err|] e1].
    + exists cs. reflexivity.
    + destruct (IH e1) as [rest Hrest].
      destruct (push_until_failure cs e1) as [[made r] e2]. simpl in *.
      exists rest. congruence.
Qed.

Lemma push_until_failure_complete (cs : list EngineCall) (e : E) :
  snd (fst (push_until_failure cs e)) = None ->
  fst (fst (push_until_failure cs e)) = cs.
Proof.
  revert e. induction cs as [|c cs IH]; intros e; simpl; [reflexivity|].
  destruct (push c e) as [[err|] e1]; simpl; [discriminate|].
  specialize (IH e1).
  destruct (push_until_failure cs e1) as [[made r] e2]. simpl in *.
  intros H. rewrite (IH H). reflexivity.
Qed.

(** C1, as the code has it.  SynthesizeText first initialises the Context;
    [c] is the Context after that: the stored one if it was initialised,
    the stored one with the four parameters at 175, 100, 50 and 50 if not.
    The pushes of [c]'s rate, volume, pitch, range and voice query are then
    made in this order under the lock, up to the first that fails.  If one
    fails, its error is returned, no later push and no synthesis call is
    made, and the Context is left as [c]; otherwise the synthesis call
    follows the five pushes. *)
Theorem SynthesizeText_pushes_in_order (s : State E) (text : string) :
  let c := initialized (ctx s) in
  (Samples c = Samples (ctx s) /\ Events c = Events (ctx s) /\
   voice c = voice (ctx s) /\
   (rate c, volume c, pitch c, tone c) =
     (if isInit (ctx s)
      then (rate (ctx s), volume (ctx s), pitch (ctx s), tone (ctx s))
      else (175, 100, 50, 50))) /\
  pushes_of c =
    [CallSetRate (rate c); CallSetVolume (volume c); CallSetPitch (pitch c);
     CallSetTone (tone c); CallSetVoice (voice c)] /\
  match push_until_failure (pushes_of c) (eng s) with
  | (made, Some err, e) =>
      (exists rest, pushes_of c = made ++ rest) /\
      SynthesizeText text s =
        (Returned (Some (EngineError err)),
         mkState c e (log s ++ [EvLock] ++ map EvCall made ++ [EvUnlock]))
  | (made, None, e) =>
      made = pushes_of c /\
      log (snd (SynthesizeText text s)) =
        log s ++ [EvLock] ++ map EvCall (pushes_of c ++ [CallSynthesize text])
          ++ [EvUnlock]
  end.
Proof.
  intros c. split; [|split; [reflexivity|]].
  { subst c. unfold initialized. destruct (isInit (ctx s)); simpl; auto. }
  unfold SynthesizeText, bind. rewrite init_run.
  rewrite Context_synthesize_run. cbn [ctx eng log]. fold c.
  pose proof (push_until_failure_prefix (pushes_of c) (eng s)) as Hp.
  pose proof (push_until_failure_complete (pushes_of c) (eng s)) as Hc.
  destruct (push_until_failure (pushes_of c) (eng s)) as [[made [err|]] e];
    cbn [fst snd] in *.
  - split; [exact Hp|reflexivity].
  - rewrite (Hc eq_refl). split; [reflexivity|].
    destruct (synthesize text c e) as [[r c'] e']. reflexivity.
Qed.

End PackageFacts.

(** ** The event decoder *)

Section DecoderFacts.

Variable audioUnit : Duration.

Lemma decodeEvents_step (bs : list byte) :
  decodeEvents audioUnit bs =
  if (eventSize <=? List.length bs)%nat
  then if read_i32 bs eventTypeOffset =? espeakEVENT_LIST_TERMINATED
       then Decoded [] (next_record bs)
       else prepend (decodeRecord audioUnit bs)
              (decodeEvents audioUnit (next_record bs))
  else ConsistencyFault.
Proof.
  rewrite decodeEvents_equation_1.
  destruct (le_lt_dec eventSize (List.length bs)) as [H|H].
  - replace (eventSize <=? List.length bs)%nat with true
      by (symmetry; apply Nat.leb_le; exact H).
    cbn [decodeEvents_unfold_clause_1].
    destruct (read_i32 bs eventTypeOffset =? espeakEVENT_LIST_TERMINATED);
      reflexivity.
  - replace (eventSize <=? List.length bs)%nat with false
      by (symmetry; apply Nat.leb_gt; exact H).
    reflexivity.
Qed.

Lemma byte_at_app (r t : list byte) (off : nat) :
  (off < List.length r)%nat -> byte_at (r ++ t) off = byte_at r off.
Proof. intros H. unfold byte_at. rewrite app_nth1 by exact H. reflexivity. Qed.

Lemma read_i32_app (r t : list byte) (off : nat) :
  (off + 3 < List.length r)%nat -> read_i32 (r ++ t) off = read_i32 r off.
Proof.
  intros H. unfold read_i32, read_u32.
  rewrite !byte_at_app by lia. reflexivity.
Qed.

Lemma read_cstring_app (r t : list byte) (off : nat) :
  List.length r = eventSize -> (off <= eventSize)%nat ->
  read_cstring (r ++ t) off = read_cstring r off.
Proof.
  intros Hr Hoff. unfold read_cstring.
  rewrite skipn_app, firstn_app, length_skipn, Hr.
  replace (eventSize - off - (eventSize - off))%nat with 0%nat by lia.
  rewrite firstn_O, app_nil_r. reflexivity.
Qed.

Lemma decodeRecord_app (r t : list byte) :
  List.length r = eventSize ->
  decodeRecord audioUnit (r ++ t) = decodeRecord audioUnit r.
Proof.
  intros Hr. unfold decodeRecord.
  rewrite !read_i32_app by (rewrite Hr; unfold eventSize, eventTypeOffset,
    eventTextPositionOffset, eventLengthOffset, eventAudioPositionOffset,
    eventNumberOffset; lia).
  rewrite !read_cstring_app by
    (try exact Hr; unfold eventSize, eventNameOffset, eventStringOffset; lia).
  reflexivity.
Qed.

Lemma next_record_app (r t : list byte) :
  List.length r = eventSize -> next_record (r ++ t) = t.
Proof.
  intros Hr. unfold next_record. rewrite skipn_app, Hr, Nat.sub_diag.
  rewrite <- Hr, skipn_all. reflexivity.
Qed.

Lemma decodeRecord_Type (bs : list byte) :
  SynthEvent.Type_ (decodeRecord audioUnit bs) =
  to_uint8 (read_i32 bs eventTypeOffset).
Proof.
  unfold decodeRecord.
  repeat match goal with
         | |- context [if ?b then SynthEvent.mk _ _ _ _ _ _ _ else _] =>
             destruct b
         end; reflexivity.
Qed.

Lemma decodeRecord_Length (bs : list byte) :
  SynthEvent.Length (decodeRecord audioUnit bs) =
  if to_uint8 (read_i32 bs eventTypeOffset) =? EventWord
  then read_i32 bs eventLengthOffset else 0.
Proof.
  unfold decodeRecord.
  repeat match goal with
         | |- context [if ?b then SynthEvent.mk _ _ _ _ _ _ _ else _] =>
             destruct b
         end; reflexivity.
Qed.

Lemma decodeRecord_payload (bs : list byte) :
  payload_fits_type (decodeRecord audioUnit bs).
Proof.
  unfold payload_fits_type. split.
  { rewrite decodeRecord_Type, decodeRecord_Length. intros Hw.
    destruct (to_uint8 (read_i32 bs eventTypeOffset) =? EventWord) eqn:H0;
      [|reflexivity].
    apply Z.eqb_eq in H0. contradiction. }
  unfold decodeRecord.
  set (typ := to_uint8 (read_i32 bs eventTypeOffset)).
  set (len := if typ =? EventWord then read_i32 bs eventLengthOffset else 0).
  destruct ((typ =? EventWord) || (typ =? EventSentence)) eqn:H1.
  { cbn [SynthEvent.Type_ SynthEvent.Number SynthEvent.Name SynthEvent.Phoneme].
    repeat split; try reflexivity.
    intros Hw Hs. apply orb_true_iff in H1.
    destruct H1 as [H1|H1]; apply Z.eqb_eq in H1; contradiction. }
  destruct ((typ =? EventMark) || (typ =? EventPlay)) eqn:H2.
  { cbn [SynthEvent.Type_ SynthEvent.Number SynthEvent.Name SynthEvent.Phoneme].
    repeat split; try reflexivity.
    intros Hm Hp. apply orb_true_iff in H2.
    destruct H2 as [H2|H2]; apply Z.eqb_eq in H2; contradiction. }
  destruct (typ =? EventPhoneme) eqn:H3.
  { cbn [SynthEvent.Type_ SynthEvent.Number SynthEvent.Name SynthEvent.Phoneme].
    repeat split; try reflexivity.
    intros Hf. apply Z.eqb_eq in H3. contradiction. }
  cbn [SynthEvent.Type_ SynthEvent.Number SynthEvent.Name SynthEvent.Phoneme].
  repeat split; reflexivity.
Qed.

(** C2.  A stream made of N event records (each of the fixed size, its tag
    not the sentinel) followed by the sentinel record, and then by anything,
    decodes to exactly the N events of the N records in stream order.  The
    decoder stops at the sentinel: what follows it is left unread.  In every
    decoded event the fields outside the subset that has a meaning for its
    type are zero: Length unless it is a Word, Number unless it is a Word or
    a Sentence, Name unless it is a Mark or a Play, Phoneme unless it is a
    Phoneme. *)
Theorem decode_records_then_sentinel
    (records : list (list byte)) (sentinel rest : list byte)
    (Hrecords : Forall event_record records)
    (Hsentinel : sentinel_record sentinel) :
  decodeEvents audioUnit (List.concat records ++ sentinel ++ rest) =
    Decoded (map (decodeRecord audioUnit) records) rest /\
  List.length (map (decodeRecord audioUnit) records) = List.length records /\
  Forall payload_fits_type (map (decodeRecord audioUnit) records).
Proof.
  split; [|split].
  - induction Hrecords as [|r records [Hlen Htag] _ IH].
    + cbn [List.concat app map]. destruct Hsentinel as [Hlen Htag].
      rewrite decodeEvents_step.
      replace (eventSize <=? List.length (sentinel ++ rest))%nat with true
        by (symmetry; apply Nat.leb_le; rewrite length_app; lia).
      rewrite read_i32_app
        by (rewrite Hlen; unfold eventSize, eventTypeOffset; lia).
      rewrite Htag, Z.eqb_refl, next_record_app by exact Hlen. reflexivity.
    + cbn [List.concat map]. rewrite <- app_assoc.
      rewrite decodeEvents_step.
      replace (eventSize <=? List.length (r ++ List.concat records ++ sentinel ++ rest))%nat
        with true by (symmetry; apply Nat.leb_le; rewrite length_app; lia).
      rewrite read_i32_app
        by (rewrite Hlen; unfold eventSize, eventTypeOffset; lia).
      replace (read_i32 r eventTypeOffset =? espeakEVENT_LIST_TERMINATED)
        with false by (symmetry; apply Z.eqb_neq; exact Htag).
      rewrite next_record_app, decodeRecord_app, IH by exact Hlen.
      reflexivity.
  - apply length_map.
  - apply Forall_forall. intros ev Hin. apply in_map_iff in Hin.
    destruct Hin as [r [<- _]]. apply decodeRecord_payload.
Qed.

End DecoderFacts.

(** ** The output of a synthesis *)

Section SynthesisFacts.

Context {E : Type} {binding : EngineBinding E}.
Variable audioUnit : Duration.
Variable run : string -> E -> list Chunk * option Error * E.

(** The binding at hand has the synthesis of the specification. *)
Hypothesis synthesize_is_spec :
  forall (text : string) (c : Context) (e : E),
    synthesize text c e = synthesize_spec audioUnit run text c e.

Lemma deliverAll_returned (ks : list Chunk) (c c' : Context) (u : unit) :
  deliverAll audioUnit ks c = (Returned u, c') ->
  Samples c' = Samples c ++ delivered_samples ks /\
  Events c' = Events c ++ delivered_events audioUnit ks.
Proof.
  revert c. induction ks as [|k ks IH]; intros c H.
  - cbn in H. inversion H; subst. cbn. rewrite !app_nil_r. auto.
  - cbn [deliverAll] in H.
    destruct (deliver audioUnit k c) as [[v|msg] c1] eqn:Hk; [|discriminate].
    apply IH in H. destruct H as [HS HE].
    unfold delivered_samples, delivered_events. cbn [flat_map].
    fold (delivered_samples ks). fold (delivered_events audioUnit ks).
    destruct k as [samples|bytes]; cbn [deliver] in Hk.
    + inversion Hk; subst c1. cbn [Samples Events with_Samples] in HS, HE.
      rewrite HS, HE, <- app_assoc. auto.
    + destruct (decodeEvents audioUnit bytes) as [events rest|]; [|discriminate].
      inversion Hk; subst c1. cbn [Samples Events with_Events] in HS, HE.
      rewrite HS, HE, <- app_assoc. auto.
Qed.

Lemma synthesis_output_is_fresh (s : State E) (text : string) :
  fst (SynthesizeText text s) = Returned None ->
  Samples (ctx (snd (SynthesizeText text s))) =
    delivered_samples (chunks_of_call run text s) /\
  Events (ctx (snd (SynthesizeText text s))) =
    delivered_events audioUnit (chunks_of_call run text s).
Proof.
  unfold chunks_of_call, SynthesizeText, bind.
  rewrite init_run, Context_synthesize_run. cbn [ctx eng log].
  destruct (push_until_failure (pushes_of (initialized (ctx s))) (eng s))
    as [[made [err|]] e]; cbn [fst snd]; [discriminate|].
  rewrite synthesize_is_spec. unfold synthesize_spec.
  destruct (run text e) as [[chunks r] e']. cbn [fst snd].
  destruct (deliverAll audioUnit chunks
              (with_Events [] (with_Samples [] (initialized (ctx s)))))
    as [[u|msg] c'] eqn:Hd; cbn [fst snd ctx]; [|discriminate].
  intros _. apply deliverAll_returned in Hd. exact Hd.
Qed.

(** C7.  A second SynthesizeText call that succeeds leaves in Samples and
    Events exactly what the engine delivered during that second call,
    whatever the first call had left there: the output of a call replaces
    the output of the call before, it is not appended to it. *)
Theorem SynthesizeText_replaces_output (s : State E) (text1 text2 : string)
    (Hsecond :
       fst (SynthesizeText text2 (snd (SynthesizeText text1 s))) = Returned None) :
  let s1 := snd (SynthesizeText text1 s) in
  let s2 := snd (SynthesizeText text2 s1) in
  Samples (ctx s2) = delivered_samples (chunks_of_call run text2 s1) /\
  Events (ctx s2) = delivered_events audioUnit (chunks_of_call run text2 s1).
Proof.
  intros s1 s2. apply synthesis_output_is_fresh. exact Hsecond.
Qed.

End SynthesisFacts.

(** ** The lock *)

Section LockFacts.

Context {E : Type} {binding : EngineBinding E}.

Local Open Scope go_scope.

Lemma log_discard {A} (m : M E A) (s : State E) :
  log (snd ((m ;; ret tt) s)) = log (snd (m s)).
Proof.
  unfold bind, ret. destruct (m s) as [[a|msg] s']; reflexivity.
Qed.

Lemma SetVoiceProperties_log (s : State E) (name language : string)
    (gender : Gender) (age variant : uint8) :
  log (snd (SetVoiceProperties name language gender age variant s)) =
  log s ++ [EvLock] ++
    map EvCall [CallSetVoice (mkVoiceQuery name language gender age variant)]
    ++ [EvUnlock].
Proof.
  unfold SetVoiceProperties, bind. rewrite validVoice_run.
  destruct (setVoice name language gender age variant (eng s)) as [[err|] e];
    cbn [as_error fst snd]; [reflexivity|].
  rewrite init_run. reflexivity.
Qed.

Lemma events_of_bracketed (o : Operation) (c : Context) (e : E) :
  bracketed (events_of o c e).
Proof.
  unfold events_of, perform.
  destruct o as [|q|q|n|text|text]; rewrite log_discard.
  - right. exists [CallListVoices].
    unfold ListVoices, lock_Lock, lock_Unlock, deferring, bind, emit,
      engine_call. cbn [ctx eng log].
    destruct (listVoices e) as [vs e']. reflexivity.
  - right.
    exists [CallSetVoice (mkVoiceQuery (name q) (language q) (gender q)
                            (age q) (variant q))].
    rewrite validVoice_run. reflexivity.
  - right.
    exists [CallSetVoice (mkVoiceQuery (name q) (language q) (gender q)
                            (age q) (variant q))].
    rewrite SetVoiceProperties_log. reflexivity.
  - unfold SetVoice. destruct (String.eqb n EmptyString).
    + left. reflexivity.
    + right. exists [CallSetVoice (mkVoiceQuery n EmptyString Unknown 0 0)].
      rewrite SetVoiceProperties_log. reflexivity.
  - right. rewrite Context_synthesize_run. cbn [ctx eng log].
    destruct (push_until_failure (pushes_of c) e) as [[made [err|]] e1].
    + exists made. reflexivity.
    + destruct (synthesize text c e1) as [[r c'] e2].
      exists (made ++ [CallSynthesize text]). reflexivity.
  - right. unfold SynthesizeText, bind. rewrite init_run.
    rewrite Context_synthesize_run. cbn [ctx eng log].
    destruct (push_until_failure (pushes_of (initialized c)) e)
      as [[made [err|]] e1].
    + exists made. reflexivity.
    + destruct (synthesize text (initialized c) e1) as [[r c'] e2].
      exists (made ++ [CallSynthesize text]). reflexivity.
Qed.

End LockFacts.

Section ScheduleFacts.

Lemma section_run_app (b : bool) (l r : list Event) :
  section_run b (l ++ r) =
  match section_run b l with
  | Some b' => section_run b' r
  | None => None
  end.
Proof.
  revert b. induction l as [|ev l IH]; intros b; cbn [app section_run].
  - reflexivity.
  - destruct (section_step b ev) as [b'|]; [apply IH|reflexivity].
Qed.

Lemma section_run_calls (calls : list EngineCall) :
  section_run true (map EvCall calls ++ [EvUnlock]) = Some false.
Proof. induction calls as [|c calls IH]; [reflexivity|exact IH]. Qed.

Lemma section_run_bracketed (evs : list Event) :
  bracketed evs -> section_run false evs = Some false.
Proof.
  intros [->|[calls ->]]; [reflexivity|].
  cbn [app section_run section_step]. apply section_run_calls.
Qed.

Lemma section_run_concat (blocks : list (list Event)) :
  Forall bracketed blocks -> section_run false (List.concat blocks) = Some false.
Proof.
  induction 1 as [|evs blocks H _ IH]; [reflexivity|].
  cbn [List.concat]. rewrite section_run_app, (section_run_bracketed _ H).
  exact IH.
Qed.

Lemma section_run_prefix (b : bool) (l r : list Event) :
  section_run b (l ++ r) <> None -> section_run b l <> None.
Proof.
  rewrite section_run_app. destruct (section_run b l); congruence.
Qed.

Lemma holding_snoc (evs : list Event) (ev : Event) :
  holding (evs ++ [ev]) =
  match ev with
  | EvLock => true
  | EvUnlock => false
  | EvCall _ => holding evs
  end.
Proof. unfold holding. rewrite fold_left_app. reflexivity. Qed.

Lemma section_run_holding (evs : list Event) (b : bool) :
  section_run false evs = Some b -> holding evs = b.
Proof.
  revert b. induction evs as [|ev evs IH] using rev_ind; intros b.
  - cbn. congruence.
  - rewrite section_run_app, holding_snoc.
    destruct (section_run false evs) as [b0|]; [|discriminate].
    specialize (IH b0 eq_refl). cbn [section_run].
    destruct ev as [| |c]; destruct b0; cbn [section_step]; congruence.
Qed.

Lemma project_app (g : goroutine) (a b : Schedule) :
  project g (a ++ b) = project g a ++ project g b.
Proof. unfold project. rewrite filter_app, map_app. reflexivity. Qed.

Lemma project_single (g g0 : goroutine) (ev : Event) :
  project g [(g0, ev)] = if Nat.eqb g0 g then [ev] else [].
Proof. unfold project. cbn. destruct (Nat.eqb g0 g); reflexivity. Qed.

Lemma mutex_run_app (l : bool) (a b : Schedule) :
  mutex_run l (a ++ b) =
  match mutex_run l a with
  | Some l' => mutex_run l' b
  | None => None
  end.
Proof.
  revert l. induction a as [|[g ev] a IH]; intros l; cbn [app mutex_run].
  - reflexivity.
  - destruct (mutex_step l ev) as [l'|]; [apply IH|reflexivity].
Qed.

Lemma holding_step (sched : Schedule) (g g0 : goroutine) (ev : Event) :
  holding (project g (sched ++ [(g0, ev)])) =
  if Nat.eqb g0 g
  then match ev with
       | EvLock => true
       | EvUnlock => false
       | EvCall _ => holding (project g sched)
       end
  else holding (project g sched).
Proof.
  rewrite project_app, project_single.
  destruct (Nat.eqb g0 g); [apply holding_snoc|rewrite app_nil_r; reflexivity].
Qed.

(** Mutual exclusion: in a schedule that the mutex allows and in which
    every goroutine keeps the discipline, at most one goroutine holds the
    lock, and none does while the mutex is unlocked. *)
Lemma mutual_exclusion (sched : Schedule) (l : bool) :
  mutex_run false sched = Some l ->
  (forall g, section_run false (project g sched) <> None) ->
  (forall g g', holding (project g sched) = true ->
                holding (project g' sched) = true -> g = g') /\
  (l = false -> forall g, holding (project g sched) = false).
Proof.
  revert l. induction sched as [|[g0 ev] sched IH] using rev_ind; intros l Hrun Hdisc.
  - split; [intros g g' H; discriminate H|reflexivity].
  - rewrite mutex_run_app in Hrun.
    destruct (mutex_run false sched) as [l0|]; [|discriminate].
    cbn [mutex_run] in Hrun.
    assert (Hdisc0 : forall g, section_run false (project g sched) <> None).
    { intros g. specialize (Hdisc g). rewrite project_app in Hdisc.
      exact (section_run_prefix _ _ _ Hdisc). }
    destruct (IH l0 eq_refl Hdisc0) as [IHa IHb].
    destruct ev as [| |c]; cbn [mutex_step] in Hrun.
    + (* Lock *)
      destruct l0; [discriminate|]. inversion Hrun; subst l.
      split; [|discriminate].
      intros g g' H H'. rewrite holding_step in H, H'.
      destruct (Nat.eqb g0 g) eqn:Eg; [|rewrite (IHb eq_refl g) in H; discriminate].
      destruct (Nat.eqb g0 g') eqn:Eg'; [|rewrite (IHb eq_refl g') in H'; discriminate].
      apply Nat.eqb_eq in Eg, Eg'. congruence.
    + (* Unlock *)
      destruct l0; [|discriminate]. inversion Hrun; subst l.
      assert (H0 : holding (project g0 sched) = true).
      { specialize (Hdisc g0). rewrite project_app, project_single in Hdisc.
        rewrite Nat.eqb_refl, section_run_app in Hdisc.
        destruct (section_run false (project g0 sched)) as [b|] eqn:Hb;
          [|congruence].
        rewrite (section_run_holding _ _ Hb).
        destruct b; [reflexivity|]. cbn in Hdisc. congruence. }
      assert (Hall : forall g, holding (project g (sched ++ [(g0, EvUnlock)])) = false).
      { intros g. rewrite holding_step.
        destruct (Nat.eqb g0 g) eqn:Eg; [reflexivity|].
        destruct (holding (project g sched)) eqn:Hg; [|reflexivity].
        apply Nat.eqb_neq in Eg. elim Eg. symmetry. exact (IHa g g0 Hg H0). }
      split; [|intros _; exact Hall].
      intros g g' H. rewrite Hall in H. discriminate.
    + (* engine call *)
      inversion Hrun; subst l.
      assert (Hsame : forall g, holding (project g (sched ++ [(g0, EvCall c)])) =
                                 holding (project g sched)).
      { intros g. rewrite holding_step. destruct (Nat.eqb g0 g); reflexivity. }
      split.
      * intros g g'. rewrite !Hsame. apply IHa.
      * intros Hl g. rewrite Hsame. exact (IHb Hl g).
Qed.

End ScheduleFacts.

Section Serialization.

Context {E : Type} {binding : EngineBinding E}.

(** SampleRate is not among these operations: it reads the sample rate from
    the binding without taking the lock. *)
Lemma SampleRate_takes_no_lock (s : State E) :
  log (snd (SampleRate s)) = log s ++ [EvCall CallGetSampleRate].
Proof.
  unfold SampleRate, engine_call. destruct (getSampleRate (eng s)). reflexivity.
Qed.

Lemma client_disciplined (evs : list Event) :
  client evs -> section_run false evs <> None.
Proof.
  intros [ops [rest Heq]]. apply (section_run_prefix false evs rest).
  rewrite Heq, section_run_concat; [discriminate|].
  apply Forall_forall. intros evs' Hin. apply in_map_iff in Hin.
  destruct Hin as [[[o c] e] [<- _]]. apply events_of_bracketed.
Qed.

(** C9.  The operations that reach the engine -- ListVoices, validVoice and
    the setters built on it, and synthesis with its pushes and its synthesis
    call -- make their engine calls between Lock and Unlock of the one
    package-level mutex.  Hence, in every schedule of goroutines running
    such operations that the mutex allows, whenever a goroutine calls the
    engine it holds the lock and no other goroutine does: the engine calls
    of an operation are not interleaved with those of another. *)
Theorem engine_calls_hold_the_lock (sched : Schedule)
    (Hmutex : mutex_allows sched)
    (Hclients : forall g : goroutine, client (project g sched)) :
  (forall (o : Operation) (c : Context) (e : E), bracketed (events_of o c e)) /\
  (forall (pre post : Schedule) (g : goroutine) (call : EngineCall),
      sched = pre ++ (g, EvCall call) :: post ->
      holding (project g pre) = true /\
      forall g' : goroutine, g' <> g -> holding (project g' pre) = false).
Proof.
  split; [exact events_of_bracketed|].
  intros pre post g call ->.
  assert (Hdisc : forall g', section_run false (project g' pre) <> None).
  { intros g'. pose proof (client_disciplined _ (Hclients g')) as H.
    rewrite project_app in H. exact (section_run_prefix _ _ _ H). }
  assert (Hg : holding (project g pre) = true).
  { pose proof (client_disciplined _ (Hclients g)) as H.
    change ((g, EvCall call) :: post) with ([(g, EvCall call)] ++ post) in H.
    rewrite !project_app, project_single, Nat.eqb_refl in H.
    rewrite app_assoc in H. apply section_run_prefix in H.
    rewrite section_run_app in H.
    destruct (section_run false (project g pre)) as [b|] eqn:Hb; [|congruence].
    rewrite (section_run_holding _ _ Hb).
    destruct b; [reflexivity|]. cbn in H. congruence. }
  split; [exact Hg|].
  intros g' Hne.
  unfold mutex_allows in Hmutex. rewrite mutex_run_app in Hmutex.
  destruct (mutex_run false pre) as [l|] eqn:Hl; [|congruence].
  destruct (mutual_exclusion pre l Hl Hdisc) as [Hone _].
  destruct (holding (project g' pre)) eqn:Hg'; [|reflexivity].
  elim Hne. exact (Hone g' g Hg' Hg).
Qed.

End Serialization.

(** * The properties at work on the small engine *)

Section Instances.

Local Open Scope go_scope.

Lemma set_then_get_demo :
  fst ((SetRate 200 ;; Rate) demoState) = Returned 200 /\
  fst ((SetVolume 80 ;; Volume) demoState) = Returned 80 /\
  fst ((SetPitch 30 ;; Pitch) demoState) = Returned 30 /\
  fst ((SetRange 70 ;; Range) demoState) = Returned 70.
Proof. apply (set_then_get demoState 200 80 30 70); lia. Defined.

Lemma set_out_of_bounds_demo :
  SetRate 500 demoState =
    (Panicked "espeak: Context.SetRate: wpm must be between 80 and 450", demoState) /\
  SetVolume (-1) demoState =
    (Panicked "espeak: Context.SetVolume: percentage must not be negative", demoState) /\
  SetPitch 101 demoState =
    (Panicked "espeak: Context.SetPitch: pitch must be between 0 and 100", demoState) /\
  SetRange (-5) demoState =
    (Panicked "espeak: Context.SetRange: tone must be between 0 and 100", demoState).
Proof. apply (set_out_of_bounds demoState 500 (-1) 101 (-5)); lia. Defined.

Lemma set_changes_own_field_demo :
  let s := mkState (initialized zeroContext) 450 [] in
  SetRate 200 s = (Returned tt, mkState (mkContext [] [] 200 100 50 50 zeroVoice true) 450 []) /\
  SetVolume 80 s = (Returned tt, mkState (mkContext [] [] 175 80 50 50 zeroVoice true) 450 []) /\
  SetPitch 30 s = (Returned tt, mkState (mkContext [] [] 175 100 30 50 zeroVoice true) 450 []) /\
  SetRange 70 s = (Returned tt, mkState (mkContext [] [] 175 100 50 70 zeroVoice true) 450 []).
Proof.
  intros s.
  apply (set_changes_own_field s 200 80 30 70); [reflexivity|lia..].
Defined.

Lemma decode_records_then_sentinel_demo :
  let records := [demoWord; demoLongMark; demoSentence] in
  (decodeEvents 1000000 (List.concat records ++ demoSentinel ++ demoWord) =
     Decoded (map (decodeRecord 1000000) records) demoWord /\
   List.length (map (decodeRecord 1000000) records) = 3%nat /\
   Forall payload_fits_type (map (decodeRecord 1000000) records)) /\
  map (fun r => read_i32 r eventLengthOffset) records = [5; 5; 9] /\
  map SynthEvent.Length (map (decodeRecord 1000000) records) = [5; 0; 0] /\
  map SynthEvent.Number (map (decodeRecord 1000000) records) = [1; 0; 1].
Proof.
  intros records. split; [|repeat split].
  apply (decode_records_then_sentinel 1000000 records demoSentinel demoWord).
  - repeat constructor; vm_compute; intros H; discriminate H.
  - split; vm_compute; reflexivity.
Defined.

Lemma SynthesizeText_replaces_output_demo :
  let s1 := snd (SynthesizeText "Hello world." demoState) in
  let s2 := snd (SynthesizeText "Again." s1) in
  Samples (ctx s2) = delivered_samples (chunks_of_call demoRun "Again." s1) /\
  Events (ctx s2) = delivered_events 1000000 (chunks_of_call demoRun "Again." s1).
Proof.
  apply (SynthesizeText_replaces_output (binding := demoBinding)
           1000000 demoRun
           (fun text c e => @eq_refl _ (synthesize_spec 1000000 demoRun text c e))
           demoState "Hello world." "Again.").
  vm_compute. reflexivity.
Defined.

Lemma engine_calls_hold_the_lock_demo :
  let pre := firstn 4 demoSchedule in
  holding (project 1%nat pre) = true /\
  forall g' : goroutine, g' <> 1%nat -> holding (project g' pre) = false.
Proof.
  intros pre.
  assert (Hmutex : mutex_allows demoSchedule).
  { unfold mutex_allows. vm_compute. discriminate. }
  assert (Hclients : forall g : goroutine, client (project g demoSchedule)).
  { intros [|[|g]].
    - exists [(OpSynthesizeText "Hello world.", zeroContext, 100)], [].
      vm_compute. reflexivity.
    - exists [(OpListVoices, zeroContext, 100)], []. vm_compute. reflexivity.
    - exists [], []. reflexivity. }
  exact (proj2 (engine_calls_hold_the_lock demoSchedule Hmutex Hclients)
           pre [(1%nat, EvUnlock)] 1%nat CallListVoices eq_refl).
Defined.

(** C1, as it is stated, on a fresh Context in front of the slow engine:
    the push of the rate fails, and the stored rate is no longer the 0 it
    was before the call but the default 175 that [init] stored. *)
Lemma SynthesizeText_failure_stores_defaults :
  fst (SynthesizeText "Hello world." demoSlowState) =
    Returned (Some (EngineError (mkError 2 "rate not supported"))) /\
  rate (ctx demoSlowState) = 0 /\
  rate (ctx (snd (SynthesizeText "Hello world." demoSlowState))) = 175 /\
  rate (ctx (snd (SynthesizeText "Hello world." demoSlowState))) <>
    rate (ctx demoSlowState).
Proof. repeat split. vm_compute. discriminate. Qed.

(** C8, as it is stated: SetVoice with the empty name does not panic, it
    returns. *)
Lemma SetVoice_empty_name_does_not_panic :
  fst (SetVoice EmptyString demoState) =
    Returned (Some (errors_New "espeak: missing name in SetVoice")) /\
  ~ (exists msg : string, fst (SetVoice EmptyString demoState) = Panicked msg).
Proof. split; [reflexivity|]. intros [msg H]. discriminate H. Qed.

End Instances.

(** * Further properties of doc.go *)

Section ParameterFacts.

Context {E : Type} {binding : EngineBinding E}.

Lemma call_setter_run (c : SetterCall) (s : State E) :
  in_bounds c ->
  call_setter c s =
  (Returned tt,
   mkState (assign_parameter c (initialized (ctx s))) (eng s) (log s)).
Proof.
  destruct c; cbn [in_bounds call_setter assign_parameter]; intros H.
  - apply SetRate_run; exact H.
  - apply SetVolume_run; exact H.
  - apply SetPitch_run; exact H.
  - apply SetRange_run; exact H.
Qed.

Lemma initialized_assign (c : SetterCall) (c0 : Context) :
  initialized (assign_parameter c (initialized c0)) =
  assign_parameter c (initialized c0).
Proof.
  apply initialized_of_init.
  destruct c; cbn; apply isInit_initialized.
Qed.

Lemma stored_assign (g : Getter) (c : SetterCall) (c0 : Context) :
  stored g (assign_parameter c c0) =
  if Getter_eqb (parameter_of c) g then value_of c else stored g c0.
Proof. destruct g, c; reflexivity. Qed.

Lemma getter_returns_stored (g : Getter) (s : State E) :
  fst (call_getter g s) = Returned (stored g (initialized (ctx s))).
Proof. rewrite getter_run. destruct g; reflexivity. Qed.

(** X1.  The last write wins, and the defaults are applied once only: after any
    sequence of setter calls with values within bounds, a getter returns
    the last value set for its parameter, and what the initialisation of the
    starting Context gives if none of the calls was about it. *)
Theorem getter_after_setters (cs : list SetterCall) (g : Getter) (s : State E)
    (Hbounds : Forall in_bounds cs) :
  fst (call_getter g (after_setters cs s)) =
  Returned (last_set g cs (stored g (initialized (ctx s)))).
Proof.
  revert s. induction Hbounds as [|c cs Hc _ IH]; intros s.
  - apply getter_returns_stored.
  - unfold after_setters, last_set in *. cbn [fold_left].
    rewrite IH, call_setter_run by exact Hc. cbn [snd ctx].
    rewrite initialized_assign, stored_assign. reflexivity.
Qed.

(** X2.  Setter calls about different parameters commute: with values within
    bounds, either order leaves the same state. *)
Theorem setters_commute (c1 c2 : SetterCall) (s : State E)
    (H1 : in_bounds c1) (H2 : in_bounds c2)
    (Hdiff : parameter_of c1 <> parameter_of c2) :
  after_setters [c1; c2] s = after_setters [c2; c1] s.
Proof.
  unfold after_setters. cbn [fold_left].
  rewrite (call_setter_run c1 s H1), (call_setter_run c2 s H2). cbn [snd].
  rewrite (call_setter_run c2 _ H2), (call_setter_run c1 _ H1). cbn [snd ctx eng log].
  rewrite !initialized_assign. f_equal.
  destruct c1, c2; cbn in Hdiff; try congruence; reflexivity.
Qed.

(** X3.  A setter called on a Context that is not yet initialised stores its
    value and the defaults of the three other parameters; the voice query,
    Samples and Events stay. *)
Theorem setter_on_fresh_context (c : SetterCall) (s : State E)
    (Hfresh : isInit (ctx s) = false) (Hbounds : in_bounds c) :
  let c' := ctx (snd (call_setter c s)) in
  (forall g : Getter,
      stored g c' =
      if Getter_eqb (parameter_of c) g then value_of c else default_of g) /\
  isInit c' = true /\
  voice c' = voice (ctx s) /\ Samples c' = Samples (ctx s) /\
  Events c' = Events (ctx s).
Proof.
  intros c'. subst c'. rewrite call_setter_run by exact Hbounds.
  cbn [snd ctx]. unfold initialized. rewrite Hfresh.
  split; [|destruct c; cbn; auto].
  intros g. rewrite stored_assign.
  destruct (Getter_eqb (parameter_of c) g); [reflexivity|].
  destruct g; reflexivity.
Qed.

(** X4.  The getters and the setters are local to the Context: whatever the
    value, in bounds or not, they call nothing of the engine, never touch
    the lock, and leave the voice query, Samples and Events as they are. *)
Theorem parameter_methods_are_local (c : SetterCall) (g : Getter) (s : State E) :
  let s1 := snd (call_setter c s) in
  let s2 := snd (call_getter g s) in
  (eng s1 = eng s /\ log s1 = log s /\ voice (ctx s1) = voice (ctx s) /\
   Samples (ctx s1) = Samples (ctx s) /\ Events (ctx s1) = Events (ctx s)) /\
  (eng s2 = eng s /\ log s2 = log s /\ voice (ctx s2) = voice (ctx s) /\
   Samples (ctx s2) = Samples (ctx s) /\ Events (ctx s2) = Events (ctx s)).
Proof.
  assert (Hinit : voice (initialized (ctx s)) = voice (ctx s) /\
                  Samples (initialized (ctx s)) = Samples (ctx s) /\
                  Events (initialized (ctx s)) = Events (ctx s)).
  { unfold initialized. destruct (isInit (ctx s)); cbn; auto. }
  destruct Hinit as (Hv & HS & HE).
  split.
  - destruct c as [v|v|v|v]; cbn [call_setter];
      unfold SetRate, SetVolume, SetPitch, SetRange;
      match goal with
      | |- context [if ?b then _ else _] => destruct b
      end; try (cbn; tauto);
      unfold bind; rewrite init_run; cbn; auto.
  - rewrite getter_run. cbn. auto.
Qed.

(** X5.  Getters do not interfere: what a getter returns is the same after any
    other getter was called, and calling a getter a second time changes
    nothing more. *)
Theorem getters_do_not_interfere (g1 g2 : Getter) (s : State E) :
  fst (call_getter g2 (snd (call_getter g1 s))) = fst (call_getter g2 s) /\
  snd (call_getter g2 (snd (call_getter g1 s))) = snd (call_getter g1 s).
Proof.
  rewrite !getter_run. cbn [fst snd ctx eng log].
  rewrite initialized_idem. split; reflexivity.
Qed.

End ParameterFacts.

Section VoiceAndSynthesisFacts.

Context {E : Type} {binding : EngineBinding E}.

Lemma SetVoiceProperties_run (s : State E)
    (name language : string) (gender : Gender) (age variant : uint8) :
  SetVoiceProperties name language gender age variant s =
  match setVoice name language gender age variant (eng s) with
  | (None, e) =>
      (Returned None,
       mkState (with_voice (mkVoiceQuery name language gender age variant)
                  (initialized (ctx s))) e
         (log s ++ [EvLock; EvCall (CallSetVoice (mkVoiceQuery name language gender age variant));
                    EvUnlock]))
  | (Some err, e) =>
      (Returned (Some (EngineError err)),
       mkState (ctx s) e
         (log s ++ [EvLock; EvCall (CallSetVoice (mkVoiceQuery name language gender age variant));
                    EvUnlock]))
  end.
Proof.
  unfold SetVoiceProperties, bind. rewrite validVoice_run.
  destruct (setVoice name language gender age variant (eng s)) as [[err|] e];
    cbn [as_error fst snd]; [reflexivity|].
  rewrite init_run. reflexivity.
Qed.

Lemma params_ok_initialized (c : Context) :
  params_ok c -> params_ok (initialized c).
Proof.
  unfold params_ok, initialized. destruct (isInit c) eqn:Hi.
  - intros H _. apply H. reflexivity.
  - intros _ _. cbn. lia.
Qed.

(** X6.  The bounds are an invariant of the methods: from a Context whose
    parameters are within bounds once initialised (the zero Context is one),
    every setter call, whatever its value, every getter, SetVoiceProperties
    and SetVoice lead to such a Context again; and the four parameters
    that SynthesizeText pushes to the engine are within the bounds. *)
Theorem parameters_stay_within_bounds (s : State E)
    (c : SetterCall) (g : Getter)
    (name language : string) (gender : Gender) (age variant : uint8)
    (Hok : params_ok (ctx s)) :
  params_ok (ctx (snd (call_setter c s))) /\
  params_ok (ctx (snd (call_getter g s))) /\
  params_ok (ctx (snd (SetVoiceProperties name language gender age variant s))) /\
  params_ok (ctx (snd (SetVoice name s))) /\
  (80 <= rate (initialized (ctx s)) <= 450 /\
   0 <= volume (initialized (ctx s)) /\
   0 <= pitch (initialized (ctx s)) <= 100 /\
   0 <= tone (initialized (ctx s)) <= 100).
Proof.
  pose proof (params_ok_initialized _ Hok) as Hi.
  pose proof (Hi (isInit_initialized _)) as Hb.
  assert (HP : forall n l ge a v,
             params_ok (ctx (snd (SetVoiceProperties n l ge a v s)))).
  { intros n l ge a v. rewrite SetVoiceProperties_run.
    destruct (setVoice n l ge a v (eng s)) as [[err|] e]; cbn [snd ctx].
    - exact Hok.
    - intros _. exact Hb. }
  split; [|split; [|split; [|split; [|exact Hb]]]].
  - destruct c as [v|v|v|v]; cbn [call_setter].
    + unfold SetRate.
      destruct ((v <? 80) || (v >? 450)) eqn:Hv; [exact Hok|].
      apply orb_false_iff in Hv. destruct Hv as [H1 H2].
      apply Z.ltb_ge in H1. rewrite Z.gtb_ltb in H2. apply Z.ltb_ge in H2.
      unfold bind. rewrite init_run. intros _. cbn. lia.
    + unfold SetVolume.
      destruct (v <? 0) eqn:Hv; [exact Hok|]. apply Z.ltb_ge in Hv.
      unfold bind. rewrite init_run. intros _. cbn. lia.
    + unfold SetPitch.
      destruct ((v <? 0) || (v >? 100)) eqn:Hv; [exact Hok|].
      apply orb_false_iff in Hv. destruct Hv as [H1 H2].
      apply Z.ltb_ge in H1. rewrite Z.gtb_ltb in H2. apply Z.ltb_ge in H2.
      unfold bind. rewrite init_run. intros _. cbn. lia.
    + unfold SetRange.
      destruct ((v <? 0) || (v >? 100)) eqn:Hv; [exact Hok|].
      apply orb_false_iff in Hv. destruct Hv as [H1 H2].
      apply Z.ltb_ge in H1. rewrite Z.gtb_ltb in H2. apply Z.ltb_ge in H2.
      unfold bind. rewrite init_run. intros _. cbn. lia.
  - rewrite getter_run. exact Hi.
  - apply HP.
  - unfold SetVoice. destruct (String.eqb name EmptyString); [exact Hok|apply HP].
Qed.

(** X7.  SetVoice with a name that is not empty selects by that name alone: it
    is SetVoiceProperties with every other field at its zero value, so on
    success the stored query is the name and nothing else, whatever
    language, gender, age or variant was stored before; when the engine
    refuses the name, its Error is returned and the Context stays. *)
Theorem SetVoice_selects_by_name_only (s : State E) (name : string)
    (Hname : name <> EmptyString) :
  SetVoice name s = SetVoiceProperties name EmptyString Unknown 0 0 s /\
  match setVoice name EmptyString Unknown 0 0 (eng s) with
  | (None, e) =>
      fst (SetVoice name s) = Returned None /\
      voice (ctx (snd (SetVoice name s))) =
        mkVoiceQuery name EmptyString Unknown 0 0
  | (Some err, e) =>
      fst (SetVoice name s) = Returned (Some (EngineError err)) /\
      ctx (snd (SetVoice name s)) = ctx s
  end.
Proof.
  assert (Heq : SetVoice name s = SetVoiceProperties name EmptyString Unknown 0 0 s).
  { unfold SetVoice. destruct (String.eqb name EmptyString) eqn:Hn; [|reflexivity].
    apply String.eqb_eq in Hn. contradiction. }
  split; [exact Heq|]. rewrite Heq, SetVoiceProperties_run.
  destruct (setVoice name EmptyString Unknown 0 0 (eng s)) as [[err|] e];
    split; reflexivity.
Qed.

End VoiceAndSynthesisFacts.

Section SynthesisCalls.

Context {E : Type} {binding : EngineBinding E}.

Lemma SynthesizeText_run (s : State E) (text : string) :
  SynthesizeText text s =
  Context_synthesize text (mkState (initialized (ctx s)) (eng s) (log s)).
Proof. unfold SynthesizeText, bind. rewrite init_run. reflexivity. Qed.

(** X8.  The lock is released when the engine panics: if the five pushes go
    through and the synthesis call of the binding panics, SynthesizeText
    panics with the same message, and the deferred Unlock has run: the
    events of the call are Lock, the five pushes, the synthesis call,
    Unlock. *)
Theorem SynthesizeText_panic_releases_lock (s : State E) (text msg : string)
    (Hpushes :
       snd (fst (push_until_failure (pushes_of (initialized (ctx s))) (eng s)))
       = None)
    (Hpanic :
       fst (fst (synthesize text (initialized (ctx s))
                   (snd (push_until_failure (pushes_of (initialized (ctx s)))
                           (eng s)))))
       = Panicked msg) :
  fst (SynthesizeText text s) = Panicked msg /\
  log (snd (SynthesizeText text s)) =
    log s ++ [EvLock] ++
      map EvCall (pushes_of (initialized (ctx s)) ++ [CallSynthesize text])
      ++ [EvUnlock].
Proof.
  rewrite SynthesizeText_run, Context_synthesize_run. cbn [ctx eng log].
  pose proof (push_until_failure_complete (pushes_of (initialized (ctx s))) (eng s) Hpushes) as Hmade.
  destruct (push_until_failure (pushes_of (initialized (ctx s))) (eng s))
    as [[made r] e]. cbn [fst snd] in *. subst r made.
  destruct (synthesize text (initialized (ctx s)) e) as [[o c'] e'].
  cbn [fst snd] in *. subst o. split; reflexivity.
Qed.

(** X9.  A call that succeeds made every engine call: when SynthesizeText
    returns nil, the events of the call are Lock, the five pushes of the
    stored parameters in their order, the synthesis call, Unlock; none was
    skipped. *)
Theorem SynthesizeText_success_made_all_calls (s : State E) (text : string)
    (Hok : fst (SynthesizeText text s) = Returned None) :
  let c := initialized (ctx s) in
  log (snd (SynthesizeText text s)) =
    log s ++
    [EvLock; EvCall (CallSetRate (rate c)); EvCall (CallSetVolume (volume c));
     EvCall (CallSetPitch (pitch c)); EvCall (CallSetTone (tone c));
     EvCall (CallSetVoice (voice c)); EvCall (CallSynthesize text); EvUnlock].
Proof.
  intros c. subst c. revert Hok.
  rewrite SynthesizeText_run, Context_synthesize_run. cbn [ctx eng log].
  pose proof (push_until_failure_complete (pushes_of (initialized (ctx s))) (eng s)) as Hmade.
  destruct (push_until_failure (pushes_of (initialized (ctx s))) (eng s))
    as [[made [err|]] e]; cbn [fst snd] in *; [discriminate|].
  rewrite (Hmade eq_refl).
  destruct (synthesize text (initialized (ctx s)) e) as [[o c'] e'].
  intros _. reflexivity.
Qed.

Lemma push_until_failure_nonempty (cs : list EngineCall) (e : E) :
  cs <> [] -> fst (fst (push_until_failure cs e)) <> [].
Proof.
  destruct cs as [|c cs]; [congruence|]. intros _. cbn [push_until_failure].
  destruct (push c e) as [[err|] e1]; [discriminate|].
  destruct (push_until_failure cs e1) as [[made r] e2]. discriminate.
Qed.

Lemma voice_assign (c : SetterCall) (c0 : Context) :
  voice (assign_parameter c (initialized c0)) = voice c0.
Proof.
  unfold initialized. destruct c, (isInit c0); reflexivity.
Qed.

Lemma after_setters_state (cs : list SetterCall) (s : State E) :
  Forall in_bounds cs ->
  eng (after_setters cs s) = eng s /\ log (after_setters cs s) = log s /\
  voice (ctx (after_setters cs s)) = voice (ctx s) /\
  forall g, stored g (initialized (ctx (after_setters cs s))) =
            last_set g cs (stored g (initialized (ctx s))).
Proof.
  intros H. revert s. induction H as [|c cs Hc _ IH]; intros s.
  - repeat split; reflexivity.
  - unfold after_setters, last_set in *. cbn [fold_left].
    destruct (IH (snd (call_setter c s))) as (He & Hl & Hv & Hs).
    rewrite call_setter_run in He, Hl, Hv, Hs |- * by exact Hc.
    cbn [snd ctx eng log] in *.
    rewrite voice_assign in Hv.
    repeat split; try assumption.
    intros g. rewrite Hs, initialized_assign, stored_assign. reflexivity.
Qed.

Lemma SynthesizeText_calls (s : State E) (text : string) :
  exists made rest : list EngineCall,
    made <> [] /\
    made ++ rest = pushes_of (initialized (ctx s)) ++ [CallSynthesize text] /\
    log (snd (SynthesizeText text s)) =
      log s ++ [EvLock] ++ map EvCall made ++ [EvUnlock].
Proof.
  rewrite SynthesizeText_run, Context_synthesize_run. cbn [ctx eng log].
  set (c := initialized (ctx s)).
  pose proof (push_until_failure_prefix (pushes_of c) (eng s)) as [rest Hrest].
  pose proof (push_until_failure_complete (pushes_of c) (eng s)) as Hall.
  assert (Hne : pushes_of c <> []) by (unfold pushes_of; discriminate).
  pose proof (push_until_failure_nonempty (pushes_of c) (eng s) Hne) as Hmade.
  destruct (push_until_failure (pushes_of c) (eng s))
    as [[made [err|]] e]; cbn [fst snd] in *.
  - exists made, (rest ++ [CallSynthesize text]). split; [exact Hmade|].
    split; [|reflexivity].
    rewrite app_assoc, <- Hrest. reflexivity.
  - rewrite (Hall eq_refl) in *.
    destruct (synthesize text c e) as [[o c'] e'].
    exists (pushes_of c ++ [CallSynthesize text]), []. split.
    + unfold pushes_of. discriminate.
    + split; [apply app_nil_r|reflexivity].
Qed.

(** X10.  What is set is what is pushed: after any sequence of setter calls with
    values within bounds, SynthesizeText takes the lock, makes a prefix that
    is not empty of these engine calls, and releases the lock: the pushes of
    the last rate, volume, pitch and range set (of the value of the
    initialised starting Context where none was set), the push of the voice
    query of the starting Context, the synthesis call. *)
Theorem SynthesizeText_pushes_what_was_set
    (cs : list SetterCall) (s : State E) (text : string)
    (Hbounds : Forall in_bounds cs) :
  let v g := last_set g cs (stored g (initialized (ctx s))) in
  exists made rest : list EngineCall,
    made <> [] /\
    made ++ rest =
      [CallSetRate (v GetRate); CallSetVolume (v GetVolume);
       CallSetPitch (v GetPitch); CallSetTone (v GetRange);
       CallSetVoice (voice (ctx s)); CallSynthesize text] /\
    log (snd (SynthesizeText text (after_setters cs s))) =
      log s ++ [EvLock] ++ map EvCall made ++ [EvUnlock].
Proof.
  intros v. subst v.
  destruct (after_setters_state cs s Hbounds) as (He & Hl & Hv & Hs).
  destruct (SynthesizeText_calls (after_setters cs s) text)
    as (made & rest & Hmade & Happ & Hlog).
  exists made, rest. split; [exact Hmade|]. split; [|rewrite Hlog, Hl; reflexivity].
  rewrite Happ. unfold pushes_of. rewrite <- !Hs, <- Hv. cbn [stored app].
  replace (voice (initialized (ctx (after_setters cs s))))
    with (voice (ctx (after_setters cs s))); [reflexivity|].
  unfold initialized. destruct (isInit (ctx (after_setters cs s))); reflexivity.
Qed.

(** X11.  The voice that is pushed is the last one the engine accepted: after
    SetVoiceProperties with a query, SynthesizeText pushes that query if the
    engine accepted it, and the query stored before if the engine refused
    it; the four parameters pushed are those of the initialised Context in
    both cases. *)
Theorem SynthesizeText_pushes_accepted_voice (s : State E)
    (name language : string) (gender : Gender) (age variant : uint8)
    (text : string) :
  let q := mkVoiceQuery name language gender age variant in
  let r := SetVoiceProperties name language gender age variant s in
  let pushed :=
    match fst r with
    | Returned None => q
    | _ => voice (ctx s)
    end in
  let c := initialized (ctx s) in
  exists made rest : list EngineCall,
    made <> [] /\
    made ++ rest =
      [CallSetRate (rate c); CallSetVolume (volume c); CallSetPitch (pitch c);
       CallSetTone (tone c); CallSetVoice pushed; CallSynthesize text] /\
    log (snd (SynthesizeText text (snd r))) =
      log s ++ [EvLock; EvCall (CallSetVoice q); EvUnlock]
        ++ [EvLock] ++ map EvCall made ++ [EvUnlock].
Proof.
  intros q r pushed c. subst q r pushed c.
  destruct (SynthesizeText_calls
              (snd (SetVoiceProperties name language gender age variant s)) text)
    as (made & rest & Hmade & Happ & Hlog).
  exists made, rest. split; [exact Hmade|]. revert Happ Hlog.
  rewrite SetVoiceProperties_run.
  destruct (setVoice name language gender age variant (eng s)) as [[err|] e];
    cbn [fst snd ctx log]; intros Happ Hlog.
  - split; [|rewrite Hlog, <- app_assoc; reflexivity].
    rewrite Happ. unfold pushes_of, initialized.
    destruct (isInit (ctx s)); reflexivity.
  - split; [|rewrite Hlog, <- app_assoc; reflexivity].
    rewrite Happ, initialized_of_init by apply isInit_initialized.
    reflexivity.
Qed.

End SynthesisCalls.

Section ErrorTexts.

Context {E : Type} {binding : EngineBinding E}.

Lemma Error_Error_prefix (err : Error) :
  String.prefix "espeak: " (Error_Error err) = true.
Proof. unfold Error_Error. destruct (Message err); reflexivity. Qed.

Lemma as_error_prefix (r : option Error) (err : error) :
  as_error r = Some err -> String.prefix "espeak: " (error_text err) = true.
Proof.
  destruct r as [e|]; cbn [as_error]; [|discriminate].
  intros H. inversion H. apply Error_Error_prefix.
Qed.

(** X12.  Every error that SetVoice, SetVoiceProperties or SynthesizeText
    returns, whether it comes from the engine or from the package itself,
    prints with the prefix of the package. *)
Theorem returned_errors_carry_the_package_prefix (s : State E)
    (name language : string) (gender : Gender) (age variant : uint8)
    (text : string) (err : error)
    (Hreturned :
       fst (SetVoice name s) = Returned (Some err) \/
       fst (SetVoiceProperties name language gender age variant s)
         = Returned (Some err) \/
       fst (SynthesizeText text s) = Returned (Some err)) :
  String.prefix "espeak: " (error_text err) = true.
Proof.
  assert (HP : forall n l g a v,
             fst (SetVoiceProperties n l g a v s) = Returned (Some err) ->
             String.prefix "espeak: " (error_text err) = true).
  { intros n l g a v. rewrite SetVoiceProperties_run.
    destruct (setVoice n l g a v (eng s)) as [[e0|] e1]; cbn [fst];
      intros H; inversion H. apply Error_Error_prefix. }
  destruct Hreturned as [H|[H|H]].
  - unfold SetVoice in H. destruct (String.eqb name EmptyString).
    + inversion H. reflexivity.
    + exact (HP _ _ _ _ _ H).
  - exact (HP _ _ _ _ _ H).
  - revert H. rewrite SynthesizeText_run, Context_synthesize_run.
    cbn [ctx eng log].
    destruct (push_until_failure (pushes_of (initialized (ctx s))) (eng s))
      as [[made [e0|]] e1]; cbn [fst].
    + intros H. inversion H. apply Error_Error_prefix.
    + destruct (synthesize text (initialized (ctx s)) e1) as [[[r|msg] c'] e2];
        cbn [fst]; intros H; inversion H as [H1].
      exact (as_error_prefix _ _ H1).
Qed.

End ErrorTexts.

Section SerialSchedules.

Context {E : Type} {binding : EngineBinding E}.

Lemma mutex_run_run_by (g : goroutine) (evs : list Event) (b b' : bool) :
  section_run b evs = Some b' -> mutex_run b (run_by g evs) = Some b'.
Proof.
  revert b. induction evs as [|ev evs IH]; intros b; cbn [section_run run_by map mutex_run].
  - auto.
  - destruct ev as [| |c]; destruct b; cbn [section_step mutex_step];
      try discriminate; apply IH.
Qed.

Lemma project_run_by (g g0 : goroutine) (evs : list Event) :
  project g (run_by g0 evs) = if Nat.eqb g0 g then evs else [].
Proof.
  unfold project, run_by. induction evs as [|ev evs IH]; cbn [map filter fst].
  - destruct (Nat.eqb g0 g); reflexivity.
  - destruct (Nat.eqb g0 g) eqn:Hg; cbn [map snd]; [|exact IH].
    rewrite IH. reflexivity.
Qed.

(** X13.  No operation blocks itself or leaves the lock taken: performed one
    after the other, by whichever goroutines and whether they return or
    panic, the operations give a schedule that the mutex allows and that
    ends with the mutex unlocked; and what each goroutine performs in it is
    the sequence of its own operations. *)
Theorem serial_schedules_are_allowed
    (ops : list (goroutine * (Operation * Context * E))) :
  mutex_run false (serial_schedule ops) = Some false /\
  forall g : goroutine,
    project g (serial_schedule ops) =
    List.concat
      (map (fun r => events_of (fst (fst (snd r))) (snd (fst (snd r))) (snd (snd r)))
         (filter (fun r => Nat.eqb (fst r) g) ops)).
Proof.
  unfold serial_schedule. induction ops as [|[g0 [[o c] e]] ops [IHa IHb]].
  - split; reflexivity.
  - cbn [map List.concat fst snd]. split.
    + rewrite mutex_run_app.
      rewrite (mutex_run_run_by g0 _ false false); [exact IHa|].
      apply section_run_bracketed, events_of_bracketed.
    + intros g. rewrite project_app, project_run_by, IHb. cbn [filter fst].
      destruct (Nat.eqb g0 g); reflexivity.
Qed.

(** X14.  SampleRate is outside the serialisation: while a goroutine is inside
    any operation that takes the lock, another goroutine can call
    SampleRate.  The mutex allows the schedule, and the engine call of
    SampleRate is made by a goroutine that does not hold the lock while the
    other one holds it. *)
Theorem SampleRate_is_not_serialized
    (o : Operation) (c : Context) (e : E) (s : State E) (g g' : goroutine)
    (Hother : g <> g') (Hevents : events_of o c e <> []) :
  exists pre post : Schedule,
    let sched :=
      pre ++ run_by g' (log (snd (SampleRate (mkState (ctx s) (eng s) []))))
          ++ post in
    project g sched = events_of o c e /\
    project g' sched = [EvCall CallGetSampleRate] /\
    mutex_allows sched /\
    holding (project g pre) = true /\
    holding (project g' pre) = false.
Proof.
  destruct (events_of_bracketed o c e) as [H|[calls H]]; [contradiction|].
  rewrite H. clear H Hevents.
  assert (Hgg : Nat.eqb g g' = false) by (apply Nat.eqb_neq; exact Hother).
  assert (Hg'g : Nat.eqb g' g = false)
    by (apply Nat.eqb_neq; intros Heq; apply Hother; symmetry; exact Heq).
  exists (run_by g [EvLock]), (run_by g (map EvCall calls ++ [EvUnlock])).
  cbn zeta. rewrite SampleRate_takes_no_lock. cbn [log app].
  rewrite !project_app, !project_run_by, !Nat.eqb_refl, Hgg, Hg'g.
  cbn [app].
  repeat split.
  unfold mutex_allows. rewrite mutex_run_app.
  cbn [run_by map app mutex_run mutex_step].
  change (map (pair g) (map EvCall calls ++ [EvUnlock]))
    with (run_by g (map EvCall calls ++ [EvUnlock])).
  rewrite (mutex_run_run_by g _ true false (section_run_calls calls)).
  discriminate.
Qed.

End SerialSchedules.

(** * The further properties at work on the small engines *)

Section MoreInstances.

Lemma getter_after_setters_demo :
  fst (call_getter GetRate
         (after_setters [SetRateTo 200; SetPitchTo 30; SetRateTo 120] demoState))
  = Returned 120 /\
  fst (call_getter GetVolume
         (after_setters [SetRateTo 200; SetPitchTo 30; SetRateTo 120] demoState))
  = Returned 100.
Proof.
  assert (H : Forall in_bounds [SetRateTo 200; SetPitchTo 30; SetRateTo 120]).
  { repeat (apply Forall_cons; [cbn; lia|]). apply Forall_nil. }
  split.
  - exact (getter_after_setters _ GetRate demoState H).
  - exact (getter_after_setters _ GetVolume demoState H).
Defined.

Lemma setters_commute_demo :
  after_setters [SetRateTo 200; SetPitchTo 30] demoState =
  after_setters [SetPitchTo 30; SetRateTo 200] demoState.
Proof.
  apply (setters_commute (SetRateTo 200) (SetPitchTo 30) demoState);
    cbn; [lia|lia|discriminate].
Defined.

Lemma setter_on_fresh_context_demo :
  let c' := ctx (snd (call_setter (SetPitchTo 30) demoState)) in
  (forall g : Getter,
      stored g c' = if Getter_eqb GetPitch g then 30 else default_of g) /\
  isInit c' = true /\
  voice c' = zeroVoice /\ Samples c' = [] /\ Events c' = [].
Proof.
  apply (setter_on_fresh_context (SetPitchTo 30) demoState);
    [reflexivity|cbn; lia].
Defined.

Lemma parameters_stay_within_bounds_demo :
  let s := mkState (with_rate 300 (initialized zeroContext)) 450 [] in
  params_ok (ctx (snd (call_setter (SetRateTo 500) s))) /\
  params_ok (ctx (snd (call_getter GetPitch s))) /\
  params_ok (ctx (snd (SetVoiceProperties "en" "en-gb" Female 30 0 s))) /\
  params_ok (ctx (snd (SetVoice "en" s))) /\
  (80 <= rate (initialized (ctx s)) <= 450 /\
   0 <= volume (initialized (ctx s)) /\
   0 <= pitch (initialized (ctx s)) <= 100 /\
   0 <= tone (initialized (ctx s)) <= 100).
Proof.
  intros s.
  apply (parameters_stay_within_bounds s (SetRateTo 500) GetPitch
           "en" "en-gb" Female 30 0).
  intros _. cbn. lia.
Defined.

Lemma SetVoice_selects_by_name_only_demo :
  let s := snd (SetVoiceProperties "en" "en-gb" Female 30 2 demoState) in
  voice (ctx s) = mkVoiceQuery "en" "en-gb" Female 30 2 /\
  fst (SetVoice "fr" s) = Returned None /\
  voice (ctx (snd (SetVoice "fr" s))) = mkVoiceQuery "fr" EmptyString Unknown 0 0.
Proof.
  intros s. split; [reflexivity|].
  assert (Hname : "fr"%string <> EmptyString) by discriminate.
  exact (proj2 (SetVoice_selects_by_name_only s "fr" Hname)).
Defined.

Lemma SynthesizeText_panic_releases_lock_demo :
  fst (SynthesizeText (binding := faultyBinding) "Hello world." demoState) =
    Panicked "espeak: engine fault" /\
  log (snd (SynthesizeText (binding := faultyBinding) "Hello world." demoState)) =
    [EvLock; EvCall (CallSetRate 175); EvCall (CallSetVolume 100);
     EvCall (CallSetPitch 50); EvCall (CallSetTone 50);
     EvCall (CallSetVoice zeroVoice); EvCall (CallSynthesize "Hello world.");
     EvUnlock].
Proof.
  apply (SynthesizeText_panic_releases_lock (binding := faultyBinding)
           demoState "Hello world." "espeak: engine fault");
    reflexivity.
Defined.

Lemma SynthesizeText_success_made_all_calls_demo :
  log (snd (SynthesizeText "Hello world." demoState)) =
    [EvLock; EvCall (CallSetRate 175); EvCall (CallSetVolume 100);
     EvCall (CallSetPitch 50); EvCall (CallSetTone 50);
     EvCall (CallSetVoice zeroVoice); EvCall (CallSynthesize "Hello world.");
     EvUnlock].
Proof.
  apply (SynthesizeText_success_made_all_calls demoState "Hello world.").
  vm_compute. reflexivity.
Defined.

Lemma SynthesizeText_pushes_what_was_set_demo :
  exists made rest : list EngineCall,
    made <> [] /\
    made ++ rest =
      [CallSetRate 90; CallSetVolume 100; CallSetPitch 30; CallSetTone 50;
       CallSetVoice zeroVoice; CallSynthesize "Hello world."] /\
    log (snd (SynthesizeText "Hello world."
                (after_setters [SetRateTo 200; SetRateTo 90; SetPitchTo 30]
                   demoSlowState))) =
      [] ++ [EvLock] ++ map EvCall made ++ [EvUnlock].
Proof.
  assert (H : Forall in_bounds [SetRateTo 200; SetRateTo 90; SetPitchTo 30]).
  { repeat (apply Forall_cons; [cbn; lia|]). apply Forall_nil. }
  exact (SynthesizeText_pushes_what_was_set _ demoSlowState "Hello world." H).
Defined.

Lemma returned_errors_carry_the_package_prefix_demo :
  String.prefix "espeak: "
    (error_text (EngineError (mkError 3 "voice not found"))) = true /\
  String.prefix "espeak: "
    (error_text (errors_New "espeak: missing name in SetVoice")) = true /\
  String.prefix "espeak: "
    (error_text (EngineError (mkError 2 "rate not supported"))) = true.
Proof.
  split; [|split].
  - apply (returned_errors_carry_the_package_prefix demoState
             "does-not-exist" EmptyString Unknown 0 0 "Hello world.").
    left. reflexivity.
  - apply (returned_errors_carry_the_package_prefix demoState
             EmptyString EmptyString Unknown 0 0 "Hello world.").
    left. reflexivity.
  - apply (returned_errors_carry_the_package_prefix demoSlowState
             "en" EmptyString Unknown 0 0 "Hello world.").
    right. right. reflexivity.
Defined.

Lemma SampleRate_is_not_serialized_demo :
  exists pre post : Schedule,
    let sched :=
      pre ++ run_by 1%nat (log (snd (SampleRate demoState))) ++ post in
    project 0%nat sched = events_of (OpSynthesizeText "Hello world.") zeroContext 450 /\
    project 1%nat sched = [EvCall CallGetSampleRate] /\
    mutex_allows sched /\
    holding (project 0%nat pre) = true /\
    holding (project 1%nat pre) = false.
Proof.
  assert (Hother : 0%nat <> 1%nat) by discriminate.
  assert (Hevents : events_of (OpSynthesizeText "Hello world.") zeroContext 450 <> []).
  { vm_compute. discriminate. }
  exact (SampleRate_is_not_serialized (OpSynthesizeText "Hello world.")
           zeroContext 450 demoState 0%nat 1%nat Hother Hevents).
Defined.

End MoreInstances.
